(** * mosquitto-example: the command-line lifecycle of [mqtt_pub] and [mqtt_sub]

    A shallow embedding of [src/mqtt_pub.c] and [src/mqtt_sub.c].

    Both programs parse their argument vector with [getopt_long] into a
    [struct context], then drive a fixed sequence of calls of the mosquitto
    client library.  The embedding has four layers:

    - [Libc]: the few C library functions the programs rely on
      ([strlen], [atoi], the [printf] conversions in use);
    - [Getopt]: GNU [getopt_long] as a step function on the scanner state;
    - [Mosquitto]: the collaborator, as a record of the replies it gives
      and the list of events (library calls and output) a run produces;
    - [Pub] and [Sub]: the two programs, function by function.

    Conventions.  A [char *] is an [option string]: [None] is the null
    pointer, [Some s] the bytes before the terminator.  An [int] is a [Z].
    Undefined behaviour of the C program (passing a null pointer to
    [strdup], [atoi] or [strlen]) is the outcome [Undefined]. *)

From Stdlib Require Import ZArith List String Ascii Bool Lia Permutation.
From Stdlib Require Import DecimalString.
Import ListNotations.

Local Open Scope string_scope.
Local Open Scope list_scope.
Local Open Scope Z_scope.

Infix "+++" := String.append (right associativity, at level 60).

(* ================================================================= *)
(** ** C library *)

Module Libc.

Definition EXIT_SUCCESS : Z := 0.
Definition EXIT_FAILURE : Z := 1.
Definition EINTR : Z := 4.

(** The code of a character, as [int]. *)
Definition chr (a : ascii) : Z := Z.of_N (N_of_ascii a).

Definition LF : string := String "010"%char EmptyString.
Definition NUL : ascii := "000"%char.

(** [strchr s c]: the suffix of [s] that starts at the first [c]. *)
Fixpoint strchr (s : string) (c : ascii) : option string :=
  match s with
  | EmptyString => None
  | String a r => if Ascii.eqb a c then Some s else strchr r c
  end.

(** The bytes of a buffer before its first NUL: what [%s] prints. *)
Fixpoint c_str (buf : string) : string :=
  match buf with
  | EmptyString => EmptyString
  | String a r => if Ascii.eqb a NUL then EmptyString else String a (c_str r)
  end.

Fixpoint string_firstn (n : nat) (s : string) : string :=
  match n, s with
  | S n', String a r => String a (string_firstn n' r)
  | _, _ => EmptyString
  end.

(** Two's complement conversion to a 32-bit [int]. *)
Definition to_int (z : Z) : Z := (z + 2 ^ 31) mod 2 ^ 32 - 2 ^ 31.

Definition strlen (s : string) : Z := Z.of_nat (String.length (c_str s)).

(** [atoi] as glibc has it: [(int) strtol (nptr, NULL, 10)], with
    [strtol] saturating at the bounds of a 64-bit [long]. *)
Definition isspace (a : ascii) : bool :=
  let n := chr a in ((9 <=? n) && (n <=? 13)) || (n =? 32).

Definition digit (a : ascii) : option Z :=
  let n := chr a in if (48 <=? n) && (n <=? 57) then Some (n - 48) else None.

Fixpoint skip_spaces (s : string) : string :=
  match s with
  | String a r => if isspace a then skip_spaces r else s
  | EmptyString => EmptyString
  end.

Fixpoint digits (acc : Z) (s : string) : Z :=
  match s with
  | String a r =>
      match digit a with
      | Some d => digits (10 * acc + d) r
      | None => acc
      end
  | EmptyString => acc
  end.

Definition LONG_MAX : Z := 2 ^ 63 - 1.
Definition LONG_MIN : Z := - 2 ^ 63.

Definition strtol (s : string) : Z :=
  match skip_spaces s with
  | String "-" r => Z.max LONG_MIN (- digits 0 r)
  | String "+" r => Z.min LONG_MAX (digits 0 r)
  | r => Z.min LONG_MAX (digits 0 r)
  end.

Definition atoi (s : string) : Z := to_int (strtol s).

(** [%d] *)
Definition fmt_d (z : Z) : string := NilZero.string_of_int (Z.to_int z).

(** [%s] *)
Definition fmt_s (s : string) : string := c_str s.

(** [%.*s] with precision [p] on a buffer: at most [p] bytes, and none
    from the first NUL on. *)
Definition fmt_s_prec (p : Z) (buf : string) : string :=
  c_str (string_firstn (Z.to_nat p) buf).

End Libc.
Import Libc.

(* ================================================================= *)
(** ** GNU getopt_long

    The scanner of glibc ([_getopt_internal_r] and [process_long_option]),
    as a step function.  The scanner state keeps [__nextchar], the rest of
    the option cluster being scanned, and the elements of [argv] after the
    one being scanned (the role of [optind]).  The permutation of [argv]
    itself is left out: neither program reads [argv] after parsing.
    With [opterr = 0] the scanner prints nothing.  The [W;] convention of
    the option string is left out; no option string here uses it. *)

Module Getopt.

Definition no_argument : Z := 0.
Definition required_argument : Z := 1.
Definition optional_argument : Z := 2.

(** [struct option]; [flag] is [false] for the null pointer. *)
Record long_option := mk_option {
  name : string;
  has_arg : Z;
  flag : bool;
  val : Z
}.

Inductive ordering := REQUIRE_ORDER | PERMUTE | RETURN_IN_ORDER.

Record getopt_data := mk_data {
  nextchar : string;
  rest : list string
}.

(** What one call hands back: the return value, [optarg], the state. *)
Definition reply : Type := Z * option string * getopt_data.

(** [_getopt_initialize]: the ordering, and the option string without
    its leading [-] or [+]. *)
Definition getopt_initialize (posixly_correct : bool) (optstring : string)
  : ordering * string :=
  match optstring with
  | String "-" r => (RETURN_IN_ORDER, r)
  | String "+" r => (REQUIRE_ORDER, r)
  | _ => (if posixly_correct then REQUIRE_ORDER else PERMUTE, optstring)
  end.

Definition NONOPTION_P (a : string) : bool :=
  match a with
  | String "-" (String _ _) => false
  | _ => true
  end.

Fixpoint skip_nonoptions (args : list string) : list string :=
  match args with
  | a :: tl => if NONOPTION_P a then skip_nonoptions tl else args
  | [] => []
  end.

Definition missing_argument (optstring : string) : Z :=
  match optstring with
  | String ":" _ => chr ":"
  | _ => chr "?"
  end.

(** The next short option character [c]; [nc] is the rest of its
    cluster and [args] the elements after the cluster. *)
Definition short_option (optstring : string) (c : ascii) (nc : string)
    (args : list string) : reply :=
  match strchr optstring c with
  | None => (chr "?", None, mk_data nc args)
  | Some temp =>
      if Ascii.eqb c ":" || Ascii.eqb c ";" then
        (chr "?", None, mk_data nc args)
      else
        match temp with
        | String _ (String ":" (String ":" _)) =>
            match nc with
            | EmptyString => (chr c, None, mk_data "" args)
            | _ => (chr c, Some nc, mk_data "" args)
            end
        | String _ (String ":" _) =>
            match nc with
            | String _ _ => (chr c, Some nc, mk_data "" args)
            | EmptyString =>
                match args with
                | [] => (missing_argument optstring, None, mk_data "" [])
                | a :: tl => (chr c, Some a, mk_data "" tl)
                end
            end
        | _ => (chr c, None, mk_data nc args)
        end
  end.

(** [nm] up to the first [=], and what follows it. *)
Fixpoint split_name (nm : string) : string * option string :=
  match nm with
  | EmptyString => (EmptyString, None)
  | String a r =>
      if Ascii.eqb a "=" then (EmptyString, Some r)
      else let '(n, v) := split_name r in (String a n, v)
  end.

Definition same_option (p q : long_option) : bool :=
  (has_arg p =? has_arg q) && Bool.eqb (flag p) (flag q) && (val p =? val q).

Definition lookup_long (longopts : list long_option) (nm : string)
  : option long_option :=
  match find (fun p => String.eqb (name p) nm) longopts with
  | Some p => Some p
  | None =>
      match filter (fun p => String.prefix nm (name p)) longopts with
      | [] => None
      | p :: ps => if forallb (same_option p) ps then Some p else None
      end
  end.

Definition process_long_option (optstring : string)
    (longopts : list long_option) (nc : string) (args : list string)
  : reply :=
  let '(nm, value) := split_name nc in
  match lookup_long longopts nm with
  | None => (chr "?", None, mk_data "" args)
  | Some p =>
      let ret := if flag p then 0 else val p in
      match value with
      | Some v =>
          if has_arg p =? 0 then (chr "?", None, mk_data "" args)
          else (ret, Some v, mk_data "" args)
      | None =>
          if has_arg p =? 1 then
            match args with
            | a :: tl => (ret, Some a, mk_data "" tl)
            | [] => (missing_argument optstring, None, mk_data "" [])
            end
          else (ret, None, mk_data "" args)
      end
  end.

Definition getopt_step (ord : ordering) (optstring : string)
    (longopts : list long_option) (d : getopt_data) : reply :=
  match nextchar d with
  | String c nc => short_option optstring c nc (rest d)
  | EmptyString =>
      let args :=
        match ord with
        | PERMUTE => skip_nonoptions (rest d)
        | _ => rest d
        end in
      match args with
      | [] => (-1, None, mk_data "" [])
      | a :: tl =>
          if String.eqb a "--" then (-1, None, mk_data "" [])
          else if NONOPTION_P a then
            match ord with
            | RETURN_IN_ORDER => (1, Some a, mk_data "" tl)
            | _ => (-1, None, mk_data "" args)
            end
          else
            match a with
            | String _ (String "-" nm) =>
                process_long_option optstring longopts nm tl
            | String _ (String c nc) => short_option optstring c nc tl
            | _ => (-1, None, mk_data "" args)
            end
      end
  end.

(** [getopt_long] right after [optind = 0]: the scanner is initialised
    from the option string and the environment ([POSIXLY_CORRECT]). *)
Definition getopt_long (posixly_correct : bool) (optstring : string)
    (longopts : list long_option) (d : getopt_data) : reply :=
  let '(ord, os) := getopt_initialize posixly_correct optstring in
  getopt_step ord os longopts d.

(** A bound on the number of calls that do not return [-1]. *)
Definition weight (d : getopt_data) : nat :=
  String.length (nextchar d)
  + fold_right (fun a n => S (String.length a + n)) 0%nat (rest d).

End Getopt.
Import Getopt.

(* ================================================================= *)
(** ** The collaborator and what a run leaves behind *)

Module Mosquitto.

Definition MOSQ_ERR_SUCCESS : Z := 0.
Definition MOSQ_ERR_CONN_LOST : Z := 7.

Definition SIGINT : Z := 2.
Definition SIGTERM : Z := 15.

(** [struct mosquitto_message], the fields the handler reads.  The
    payload is a buffer of bytes, not a C string. *)
Record mosquitto_message := mk_message {
  mid : Z;
  msg_topic : string;
  payload : string;
  payloadlen : Z;
  msg_retain : bool
}.

(** What a run does that can be seen from outside, in order: output
    and calls of the collaborator with their arguments (the client
    handle and the null [mid] and user-data pointers left out). *)
Inductive event :=
| stdout (text : string)
| stderr (text : string)
| signal (signum : Z)
| mosquitto_lib_init
| mosquitto_new (id : option string) (clean_session : bool)
| mosquitto_username_pw_set (user password : option string)
| mosquitto_message_callback_set
| mosquitto_connect (host : option string) (port keepalive : Z)
| mosquitto_publish (topic : option string) (payloadlen : Z)
    (payload : option string) (qos : Z) (retain : bool)
| mosquitto_subscribe (topic : option string) (qos : Z)
| mosquitto_loop (timeout max_packets : Z)
| mosquitto_unsubscribe (topic : option string)
| mosquitto_destroy
| mosquitto_lib_cleanup.

(** One call of [mosquitto_loop]: its return value, the messages it
    hands to the message callback meanwhile, the value of [errno]
    after it, and whether SIGINT or SIGTERM arrived before the loop
    condition is tested again. *)
Record loop_reply := mk_loop_reply {
  loop_rc : Z;
  delivered : list mosquitto_message;
  loop_errno : Z;
  signalled : bool
}.

(** The replies of the collaborator and of the environment in one run.
    Every call but [mosquitto_loop] happens at most once in a run. *)
Record world := mk_world {
  lib_init_rc : Z;
  new_ok : bool;                  (* [mosquitto_new] returns a handle *)
  username_pw_set_rc : Z;
  connect_rc : Z;
  publish_rc : Z;
  subscribe_rc : Z;
  signalled_early : bool;         (* a signal arrived before the loop *)
  errno_early : Z;                (* [errno] when the loop starts *)
  loop_replies : list loop_reply;
  unsubscribe_rc : Z;
  strerror : Z -> string
}.

(** How a computation ends: with a value and the events it produced,
    in undefined behaviour, or not within the steps it was given. *)
Inductive outcome (A : Type) :=
| Ok (a : A) (out : list event)
| Undefined
| Unfinished.
Arguments Ok {A} a out.
Arguments Undefined {A}.
Arguments Unfinished {A}.

End Mosquitto.
Import Mosquitto.

(* ================================================================= *)
(** ** The option loop shared by both programs

    [while (!done) { c = getopt_long (...); switch (c) { ... } }].
    The body of the [switch] differs between the programs and is the
    parameter [option_case]: it goes on with a new context ([Next]),
    sets [done] ([Last]), or is undefined ([Fault]). *)

Inductive step (context : Type) :=
| Next (ctx : context)
| Last (ctx : context) (out : list event)
| Fault.
Arguments Next {context} ctx.
Arguments Last {context} ctx out.
Arguments Fault {context}.

Section OptionLoop.

Context {context : Type}.
Variable posixly_correct : bool.
Variable optstring : string.
Variable long_opts : list long_option.
Variable option_case : context -> Z -> option string -> step context.

Fixpoint option_loop (fuel : nat) (ctx : context) (d : getopt_data)
  : outcome context :=
  match fuel with
  | O => Unfinished
  | S fuel' =>
      let '(c, optarg, d') :=
        getopt_long posixly_correct optstring long_opts d in
      match option_case ctx c optarg with
      | Next ctx' => option_loop fuel' ctx' d'
      | Last ctx' out => Ok ctx' out
      | Fault => Undefined
      end
  end.

(** The return values and [optarg]s of successive calls, up to the
    first [-1]. *)
Fixpoint getopt_calls (fuel : nat) (d : getopt_data)
  : list (Z * option string) :=
  match fuel with
  | O => []
  | S fuel' =>
      let '(c, optarg, d') :=
        getopt_long posixly_correct optstring long_opts d in
      (c, optarg) :: (if c =? -1 then [] else getopt_calls fuel' d')
  end.

(** The [switch] run over a list of replies. *)
Fixpoint run_cases (ctx : context) (calls : list (Z * option string))
  : outcome context :=
  match calls with
  | [] => Unfinished
  | (c, optarg) :: tl =>
      match option_case ctx c optarg with
      | Next ctx' => run_cases ctx' tl
      | Last ctx' out => Ok ctx' out
      | Fault => Undefined
      end
  end.

(** The reply at which the loop stops: the first that is not [Next]. *)
Fixpoint stop_case (ctx : context) (calls : list (Z * option string))
  : option (Z * option string) :=
  match calls with
  | [] => None
  | (c, optarg) :: tl =>
      match option_case ctx c optarg with
      | Next ctx' => stop_case ctx' tl
      | _ => Some (c, optarg)
      end
  end.

(** The replies the loop consumes, the stopping one included. *)
Fixpoint consumed (ctx : context) (calls : list (Z * option string))
  : list (Z * option string) :=
  match calls with
  | [] => []
  | (c, optarg) :: tl =>
      (c, optarg) ::
      match option_case ctx c optarg with
      | Next ctx' => consumed ctx' tl
      | _ => []
      end
  end.

End OptionLoop.

(** The scanner state at the first call: [argv] without the program name. *)
Definition getopt_start (args : list string) : getopt_data :=
  mk_data "" args.

Definition enough_fuel (args : list string) : nat :=
  S (weight (getopt_start args)).

(** The [optarg] of the last reply with return value [c], if any. *)
Fixpoint last_optarg (c : Z) (calls : list (Z * option string))
  : option (option string) :=
  match calls with
  | [] => None
  | (c', optarg) :: tl =>
      match last_optarg c tl with
      | Some a => Some a
      | None => if c' =? c then Some optarg else None
      end
  end.

Definition replies_with (c : Z) (calls : list (Z * option string)) : bool :=
  existsb (fun r => fst r =? c) calls.

Definition unlines (ls : list string) : string :=
  fold_right (fun l s => l +++ LF +++ s) "" ls.

Definition MQTT_DEFAULT_PORT : Z := 1883.
Definition MQTT_KEEPALIVE : Z := 60 * 1000.
Definition MQTT_QOS : Z := 0.
Definition LOOP_INTERVAL : Z := 1000.

(* ================================================================= *)
(** ** mqtt_pub.c *)

Module Pub.

Inductive command := COMMAND_PUB | COMMAND_SHOW_HELP.

Record context := mk_context {
  id : option string;
  user : option string;
  password : option string;
  host : option string;
  port : Z;
  topic : option string;
  message : option string;
  retain : bool;
  cmd : command;
  exit_code : Z
}.

Definition set_id (ctx : context) v :=
  mk_context v (user ctx) (password ctx) (host ctx) (port ctx) (topic ctx)
    (message ctx) (retain ctx) (cmd ctx) (exit_code ctx).
Definition set_user (ctx : context) v :=
  mk_context (id ctx) v (password ctx) (host ctx) (port ctx) (topic ctx)
    (message ctx) (retain ctx) (cmd ctx) (exit_code ctx).
Definition set_password (ctx : context) v :=
  mk_context (id ctx) (user ctx) v (host ctx) (port ctx) (topic ctx)
    (message ctx) (retain ctx) (cmd ctx) (exit_code ctx).
Definition set_host (ctx : context) v :=
  mk_context (id ctx) (user ctx) (password ctx) v (port ctx) (topic ctx)
    (message ctx) (retain ctx) (cmd ctx) (exit_code ctx).
Definition set_port (ctx : context) v :=
  mk_context (id ctx) (user ctx) (password ctx) (host ctx) v (topic ctx)
    (message ctx) (retain ctx) (cmd ctx) (exit_code ctx).
Definition set_topic (ctx : context) v :=
  mk_context (id ctx) (user ctx) (password ctx) (host ctx) (port ctx) v
    (message ctx) (retain ctx) (cmd ctx) (exit_code ctx).
Definition set_message (ctx : context) v :=
  mk_context (id ctx) (user ctx) (password ctx) (host ctx) (port ctx)
    (topic ctx) v (retain ctx) (cmd ctx) (exit_code ctx).
Definition set_retain (ctx : context) v :=
  mk_context (id ctx) (user ctx) (password ctx) (host ctx) (port ctx)
    (topic ctx) (message ctx) v (cmd ctx) (exit_code ctx).
Definition set_cmd (ctx : context) v :=
  mk_context (id ctx) (user ctx) (password ctx) (host ctx) (port ctx)
    (topic ctx) (message ctx) (retain ctx) v (exit_code ctx).
Definition set_exit_code (ctx : context) v :=
  mk_context (id ctx) (user ctx) (password ctx) (host ctx) (port ctx)
    (topic ctx) (message ctx) (retain ctx) (cmd ctx) v.

Definition print_usage : list event :=
  [stdout (unlines [
    "mqtt_pub, (c) 2024 Falk Werner <github.com/falk-werner>";
    "Publish message to MQTT topic";
    "";
    "Usage:";
    "    mqtt_pub [-h host] [-p port] [-u user] [-P password]";
    "             [-i client-id] [-r]";
    "             -t topic -m message";
    "";
    "Options:";
    "    -h, --host     : hostname of MQTT broker (default: localhost)";
    "    -p, --port     : port of MQTT broker (default: 1883)";
    "    -u, --user     : name of the MQTT user (default: <unset>)";
    "    -p, --password : password of the MQTT user (default: <unset>)";
    "    -i, --client-id: MQTT client id (default: <unset>)";
    "    -r, --retain   : retain message (default: message is not retained)";
    "    -t, --topic    : MQTT topic to publish (required)";
    "    -m, --message  : message to public (required)";
    "";
    "Example:";
    "    mqtt_pub -t test -m hello"
  ])].

Definition optstring : string := "i:h:p:u:P:rt:m:H".

Definition long_opts : list long_option := [
  mk_option "client-id" no_argument false (chr "i");
  mk_option "host" no_argument false (chr "h");
  mk_option "port" no_argument false (chr "p");
  mk_option "user" no_argument false (chr "u");
  mk_option "password" no_argument false (chr "P");
  mk_option "retain" no_argument false (chr "r");
  mk_option "topic" no_argument false (chr "t");
  mk_option "message" no_argument false (chr "m");
  mk_option "help" no_argument false (chr "H")
].

(** [strdup (optarg)] into a field; undefined on a null [optarg]. *)
Definition strdup_into (set : context -> option string -> context)
    (ctx : context) (optarg : option string) : step context :=
  match optarg with
  | Some a => Next (set ctx (Some a))
  | None => Fault
  end.

(** The [switch (c)] of [context_init]. *)
Definition option_case (ctx : context) (c : Z) (optarg : option string)
  : step context :=
  if c =? -1 then Last ctx []
  else if c =? chr "i" then strdup_into set_id ctx optarg
  else if c =? chr "h" then strdup_into set_host ctx optarg
  else if c =? chr "p" then
    match optarg with
    | Some a => Next (set_port ctx (atoi a))
    | None => Fault
    end
  else if c =? chr "u" then strdup_into set_user ctx optarg
  else if c =? chr "P" then strdup_into set_password ctx optarg
  else if c =? chr "r" then Next (set_retain ctx true)
  else if c =? chr "t" then strdup_into set_topic ctx optarg
  else if c =? chr "m" then strdup_into set_message ctx optarg
  else if c =? chr "H" then Last (set_cmd ctx COMMAND_SHOW_HELP) []
  else
    Last (set_cmd (set_exit_code ctx EXIT_FAILURE) COMMAND_SHOW_HELP)
      [stderr ("error: unknown option" +++ LF)].

(** The case labels of the [switch]; any other value is [default]. *)
Definition case_labels : list Z :=
  [-1; chr "i"; chr "h"; chr "p"; chr "u"; chr "P"; chr "r"; chr "t";
   chr "m"; chr "H"].

Definition is_default (c : Z) : bool := negb (existsb (Z.eqb c) case_labels).

Definition initial : context :=
  mk_context None None None (Some "localhost") MQTT_DEFAULT_PORT None None
    false COMMAND_PUB EXIT_SUCCESS.

Definition is_null (p : option string) : bool :=
  match p with None => true | Some _ => false end.

Definition is_pub (c : command) : bool :=
  match c with COMMAND_PUB => true | COMMAND_SHOW_HELP => false end.

(** The check of the required fields that ends [context_init]. *)
Definition check_required (ctx : context) (out : list event)
  : context * list event :=
  if is_pub (cmd ctx) && (is_null (topic ctx) || is_null (message ctx)) then
    (set_cmd (set_exit_code ctx EXIT_FAILURE) COMMAND_SHOW_HELP,
     out ++ [stderr ("error: topic or message not specified" +++ LF)])
  else (ctx, out).

Definition context_init (posixly_correct : bool) (args : list string)
  : outcome context :=
  match option_loop posixly_correct optstring long_opts option_case
          (enough_fuel args) initial (getopt_start args) with
  | Ok ctx out => let '(ctx', out') := check_required ctx out in Ok ctx' out'
  | Undefined => Undefined
  | Unfinished => Unfinished
  end.

Definition context_cleanup (ctx : context) : Z := exit_code ctx.

Definition failed (rc : Z) : bool := negb (MOSQ_ERR_SUCCESS =? rc).

Definition mqtt_pub (w : world) (ctx : context) : outcome context :=
  let fail := set_exit_code ctx EXIT_FAILURE in
  let t1 := [mosquitto_lib_init] in
  if failed (lib_init_rc w) then
    Ok fail (t1 ++ [stderr ("error: failed to init mosquitto library" +++ LF)])
  else
  let t2 := t1 ++ [mosquitto_new (id ctx) true] in
  if negb (new_ok w) then
    Ok fail (t2 ++ [stderr ("error: failed to create mosquitto instance" +++ LF);
                    mosquitto_lib_cleanup])
  else
  let t3 := t2 ++ [mosquitto_username_pw_set (user ctx) (password ctx)] in
  if failed (username_pw_set_rc w) then
    Ok fail (t3 ++ [stderr ("error: failed to set user and password" +++ LF);
                    mosquitto_destroy; mosquitto_lib_cleanup])
  else
  let t4 := t3 ++ [mosquitto_connect (host ctx) (port ctx) MQTT_KEEPALIVE] in
  if failed (connect_rc w) then
    Ok fail (t4 ++ [stderr ("error: failed to connect to MQTT broker" +++ LF);
                    mosquitto_destroy; mosquitto_lib_cleanup])
  else
  match message ctx with
  | None => Undefined                       (* [strlen (NULL)] *)
  | Some m =>
      let message_length := to_int (strlen m) in
      let t5 := t4 ++ [mosquitto_publish (topic ctx) message_length
                         (message ctx) MQTT_QOS (retain ctx)] in
      if failed (publish_rc w) then
        Ok fail (t5 ++ [stderr ("error: failed to publish message" +++ LF);
                        mosquitto_destroy; mosquitto_lib_cleanup])
      else
        Ok ctx (t5 ++ [mosquitto_destroy; mosquitto_lib_cleanup])
  end.

Definition main (posixly_correct : bool) (w : world) (args : list string)
  : outcome Z :=
  match context_init posixly_correct args with
  | Ok ctx out =>
      match cmd ctx with
      | COMMAND_PUB =>
          match mqtt_pub w ctx with
          | Ok ctx' out' => Ok (context_cleanup ctx') (out ++ out')
          | Undefined => Undefined
          | Unfinished => Unfinished
          end
      | COMMAND_SHOW_HELP => Ok (context_cleanup ctx) (out ++ print_usage)
      end
  | Undefined => Undefined
  | Unfinished => Unfinished
  end.

End Pub.

(* ================================================================= *)
(** ** mqtt_sub.c *)

Module Sub.

Inductive command := COMMAND_SUB | COMMAND_SHOW_HELP.

Record context := mk_context {
  id : option string;
  user : option string;
  password : option string;
  host : option string;
  port : Z;
  topic : option string;
  retain : bool;
  cmd : command;
  exit_code : Z
}.

Definition set_id (ctx : context) v :=
  mk_context v (user ctx) (password ctx) (host ctx) (port ctx) (topic ctx)
    (retain ctx) (cmd ctx) (exit_code ctx).
Definition set_user (ctx : context) v :=
  mk_context (id ctx) v (password ctx) (host ctx) (port ctx) (topic ctx)
    (retain ctx) (cmd ctx) (exit_code ctx).
Definition set_password (ctx : context) v :=
  mk_context (id ctx) (user ctx) v (host ctx) (port ctx) (topic ctx)
    (retain ctx) (cmd ctx) (exit_code ctx).
Definition set_host (ctx : context) v :=
  mk_context (id ctx) (user ctx) (password ctx) v (port ctx) (topic ctx)
    (retain ctx) (cmd ctx) (exit_code ctx).
Definition set_port (ctx : context) v :=
  mk_context (id ctx) (user ctx) (password ctx) (host ctx) v (topic ctx)
    (retain ctx) (cmd ctx) (exit_code ctx).
Definition set_topic (ctx : context) v :=
  mk_context (id ctx) (user ctx) (password ctx) (host ctx) (port ctx) v
    (retain ctx) (cmd ctx) (exit_code ctx).
Definition set_retain (ctx : context) v :=
  mk_context (id ctx) (user ctx) (password ctx) (host ctx) (port ctx)
    (topic ctx) v (cmd ctx) (exit_code ctx).
Definition set_cmd (ctx : context) v :=
  mk_context (id ctx) (user ctx) (password ctx) (host ctx) (port ctx)
    (topic ctx) (retain ctx) v (exit_code ctx).
Definition set_exit_code (ctx : context) v :=
  mk_context (id ctx) (user ctx) (password ctx) (host ctx) (port ctx)
    (topic ctx) (retain ctx) (cmd ctx) v.

Definition print_usage : list event :=
  [stdout (unlines [
    "mqtt_sub, (c) 2024 Falk Werner <github.com/falk-werner>";
    "Subscribe to a MQTT topic";
    "";
    "Usage:";
    "    mqtt_sub [-h host] [-p port] [-u user] [-P password]";
    "             [-i client-id] [-r] -t topic";
    "";
    "Options:";
    "    -h, --host     : hostname of MQTT broker (default: localhost)";
    "    -p, --port     : port of MQTT broker (default: 1883)";
    "    -u, --user     : name of the MQTT user (default: <unset>)";
    "    -p, --password : password of the MQTT user (default: <unset>)";
    "    -i, --client-id: MQTT client id (default: <unset>)";
    "    -r, --retain   : retain message (default: message is not retained)";
    "    -t, --topic    : MQTT topic to publish (required)";
    "";
    "Example:";
    "    mqtt_sub -t test"
  ])].

Definition optstring : string := "i:h:p:u:P:rt:m:H".

Definition long_opts : list long_option := [
  mk_option "client-id" no_argument false (chr "i");
  mk_option "host" no_argument false (chr "h");
  mk_option "port" no_argument false (chr "p");
  mk_option "user" no_argument false (chr "u");
  mk_option "password" no_argument false (chr "P");
  mk_option "retain" no_argument false (chr "r");
  mk_option "topic" no_argument false (chr "t");
  mk_option "help" no_argument false (chr "H")
].

Definition strdup_into (set : context -> option string -> context)
    (ctx : context) (optarg : option string) : step context :=
  match optarg with
  | Some a => Next (set ctx (Some a))
  | None => Fault
  end.

(** The [switch (c)] of [context_init]; it has no case for [m]. *)
Definition option_case (ctx : context) (c : Z) (optarg : option string)
  : step context :=
  if c =? -1 then Last ctx []
  else if c =? chr "i" then strdup_into set_id ctx optarg
  else if c =? chr "h" then strdup_into set_host ctx optarg
  else if c =? chr "p" then
    match optarg with
    | Some a => Next (set_port ctx (atoi a))
    | None => Fault
    end
  else if c =? chr "u" then strdup_into set_user ctx optarg
  else if c =? chr "P" then strdup_into set_password ctx optarg
  else if c =? chr "r" then Next (set_retain ctx true)
  else if c =? chr "t" then strdup_into set_topic ctx optarg
  else if c =? chr "H" then Last (set_cmd ctx COMMAND_SHOW_HELP) []
  else
    Last (set_cmd (set_exit_code ctx EXIT_FAILURE) COMMAND_SHOW_HELP)
      [stderr ("error: unknown option" +++ LF)].

Definition case_labels : list Z :=
  [-1; chr "i"; chr "h"; chr "p"; chr "u"; chr "P"; chr "r"; chr "t";
   chr "H"].

Definition is_default (c : Z) : bool := negb (existsb (Z.eqb c) case_labels).

Definition initial : context :=
  mk_context None None None (Some "localhost") MQTT_DEFAULT_PORT None
    false COMMAND_SUB EXIT_SUCCESS.

Definition is_null (p : option string) : bool :=
  match p with None => true | Some _ => false end.

Definition is_sub (c : command) : bool :=
  match c with COMMAND_SUB => true | COMMAND_SHOW_HELP => false end.

Definition check_required (ctx : context) (out : list event)
  : context * list event :=
  if is_sub (cmd ctx) && is_null (topic ctx) then
    (set_cmd (set_exit_code ctx EXIT_FAILURE) COMMAND_SHOW_HELP,
     out ++ [stderr ("error: missing topic" +++ LF)])
  else (ctx, out).

Definition context_init (posixly_correct : bool) (args : list string)
  : outcome context :=
  match option_loop posixly_correct optstring long_opts option_case
          (enough_fuel args) initial (getopt_start args) with
  | Ok ctx out => let '(ctx', out') := check_required ctx out in Ok ctx' out'
  | Undefined => Undefined
  | Unfinished => Unfinished
  end.

Definition context_cleanup (ctx : context) : Z := exit_code ctx.

(** The payload line of [mqtt_on_message]. *)
Definition payload_text (m : mosquitto_message) : string :=
  if 0 <? payloadlen m then fmt_s_prec (payloadlen m) (payload m)
  else "<empty>".

Definition mqtt_on_message (m : mosquitto_message) : list event :=
  [stdout ("message id: " +++ fmt_d (mid m) +++ LF);
   stdout ("topic     : " +++ fmt_s (msg_topic m) +++ LF);
   stdout ("retained  : " +++ (if msg_retain m then "yes" else "no") +++ LF);
   stdout ("payload   : " +++ payload_text m +++ LF);
   stdout LF].

Definition failed (rc : Z) : bool := negb (MOSQ_ERR_SUCCESS =? rc).

(** [while ((rc == MOSQ_ERR_SUCCESS) && (!g_shutdown_requested))].
    The result is [rc] and [errno] when the loop is left; the loop is
    [Unfinished] when it is still running after the last reply. *)
Fixpoint receive_loop (rc : Z) (g_shutdown_requested : bool) (errno : Z)
    (replies : list loop_reply) {struct replies} : outcome (Z * Z) :=
  if (rc =? MOSQ_ERR_SUCCESS) && negb g_shutdown_requested then
    match replies with
    | [] => Unfinished
    | r :: tl =>
        match receive_loop (loop_rc r)
                (g_shutdown_requested || signalled r) (loop_errno r) tl with
        | Ok x out =>
            Ok x (mosquitto_loop LOOP_INTERVAL 1
                  :: flat_map mqtt_on_message (delivered r) ++ out)
        | Undefined => Undefined
        | Unfinished => Unfinished
        end
    end
  else Ok (rc, errno) [].

(** What follows the loop: the check of its result. *)
Definition after_loop (w : world) (ctx : context) (rc errno : Z)
  : context * list event :=
  if (MOSQ_ERR_SUCCESS =? rc) && negb (errno =? EINTR) then
    (set_exit_code ctx EXIT_FAILURE,
     [stderr ("error: failed to execute message loop; "
              +++ fmt_s (strerror w errno) +++ LF)])
  else (ctx, []).

(** The unsubscribe step and the release of the handle and library. *)
Definition unsubscribe_step (w : world) (ctx : context)
  : context * list event :=
  (ctx,
   mosquitto_unsubscribe (topic ctx)
   :: (if failed (unsubscribe_rc w)
       then [stderr ("warning: failed to unsubscribe" +++ LF)] else [])
   ++ [mosquitto_destroy; mosquitto_lib_cleanup]).

Definition mqtt_sub (w : world) (ctx : context) : outcome context :=
  let fail := set_exit_code ctx EXIT_FAILURE in
  let t1 := [signal SIGINT; signal SIGTERM; mosquitto_lib_init] in
  if failed (lib_init_rc w) then
    Ok fail (t1 ++ [stderr ("error: failed to init mosquitto library" +++ LF)])
  else
  let t2 := t1 ++ [mosquitto_new (id ctx) true] in
  if negb (new_ok w) then
    Ok fail (t2 ++ [stderr ("error: failed to create mosquitto instance" +++ LF);
                    mosquitto_lib_cleanup])
  else
  let t3 := t2 ++ [mosquitto_username_pw_set (user ctx) (password ctx)] in
  if failed (username_pw_set_rc w) then
    Ok fail (t3 ++ [stderr ("error: failed to set user and password" +++ LF);
                    mosquitto_destroy; mosquitto_lib_cleanup])
  else
  let t4 := t3 ++ [mosquitto_message_callback_set;
                   mosquitto_connect (host ctx) (port ctx) MQTT_KEEPALIVE] in
  if failed (connect_rc w) then
    Ok fail (t4 ++ [stderr ("error: failed to connect to MQTT broker" +++ LF);
                    mosquitto_destroy; mosquitto_lib_cleanup])
  else
  let t5 := t4 ++ [mosquitto_subscribe (topic ctx) MQTT_QOS] in
  if failed (subscribe_rc w) then
    Ok fail (t5 ++ [stderr ("error: failed to subscribe" +++ LF);
                    mosquitto_destroy; mosquitto_lib_cleanup])
  else
  match receive_loop (subscribe_rc w) (signalled_early w) (errno_early w)
          (loop_replies w) with
  | Ok (rc, errno) t6 =>
      let '(ctx1, t7) := after_loop w ctx rc errno in
      let '(ctx2, t8) := unsubscribe_step w ctx1 in
      Ok ctx2 (t5 ++ t6 ++ t7 ++ t8)
  | Undefined => Undefined
  | Unfinished => Unfinished
  end.

Definition main (posixly_correct : bool) (w : world) (args : list string)
  : outcome Z :=
  match context_init posixly_correct args with
  | Ok ctx out =>
      match cmd ctx with
      | COMMAND_SUB =>
          match mqtt_sub w ctx with
          | Ok ctx' out' => Ok (context_cleanup ctx') (out ++ out')
          | Undefined => Undefined
          | Unfinished => Unfinished
          end
      | COMMAND_SHOW_HELP => Ok (context_cleanup ctx) (out ++ print_usage)
      end
  | Undefined => Undefined
  | Unfinished => Unfinished
  end.

End Sub.

(* ================================================================= *)
(** ** Flags as the scanner reports them

    What "a flag was supplied" and "parsing met a flag" mean: the replies
    of [getopt_long] over the whole argument vector ([pub_calls]), the
    ones the loop of [context_init] consumes before it stops
    ([pub_seen]), and the reply at which it stops ([pub_stop]). *)

Definition pub_calls (posixly_correct : bool) (args : list string) :=
  getopt_calls posixly_correct Pub.optstring Pub.long_opts
    (enough_fuel args) (getopt_start args).

Definition pub_seen (posixly_correct : bool) (args : list string) :=
  consumed Pub.option_case Pub.initial (pub_calls posixly_correct args).

Definition pub_stop (posixly_correct : bool) (args : list string) :=
  stop_case Pub.option_case Pub.initial (pub_calls posixly_correct args).

Definition sub_calls (posixly_correct : bool) (args : list string) :=
  getopt_calls posixly_correct Sub.optstring Sub.long_opts
    (enough_fuel args) (getopt_start args).

Definition sub_seen (posixly_correct : bool) (args : list string) :=
  consumed Sub.option_case Sub.initial (sub_calls posixly_correct args).

Definition sub_stop (posixly_correct : bool) (args : list string) :=
  stop_case Sub.option_case Sub.initial (sub_calls posixly_correct args).



(** The value a string field holds after the replies [seen]. *)
Definition recorded (c : Z) (seen : list (Z * option string))
    (initial : option string) : option string :=
  match last_optarg c seen with
  | Some a => a
  | None => initial
  end.

(** The port after the replies [seen]: [atoi] of the last [-p] value. *)
Definition recorded_port (seen : list (Z * option string)) (initial port : Z)
  : Prop :=
  match last_optarg (chr "p") seen with
  | Some (Some s) => port = atoi s
  | Some None => False
  | None => port = initial
  end.

(** The text a list of events writes to standard output. *)
Definition stdout_text (out : list event) : string :=
  fold_right (fun e s => match e with stdout t => t +++ s | _ => s end) "" out.

Definition is_publish (e : event) : bool :=
  match e with mosquitto_publish _ _ _ _ _ => true | _ => false end.

Definition is_unsubscribe (e : event) : bool :=
  match e with mosquitto_unsubscribe _ => true | _ => false end.


(* ================================================================= *)
(** ** Notions the properties are stated with *)

(** The weight of the elements of [argv] still to be scanned. *)
Definition args_weight (args : list string) : nat :=
  fold_right (fun a n => S (String.length a + n)) 0%nat args.

(** What a case of the publisher's [switch] that goes on with the loop
    does to the context, for the reply [c] with [optarg] [a]. *)
Definition pub_updated (ctx : Pub.context) (c : Z) (a : option string)
    (ctx' : Pub.context) : Prop :=
  Pub.id ctx' = (if c =? chr "i" then a else Pub.id ctx) /\
  Pub.host ctx' = (if c =? chr "h" then a else Pub.host ctx) /\
  Pub.port ctx' =
    (if c =? chr "p"
     then match a with Some s => atoi s | None => Pub.port ctx end
     else Pub.port ctx) /\
  Pub.user ctx' = (if c =? chr "u" then a else Pub.user ctx) /\
  Pub.password ctx' = (if c =? chr "P" then a else Pub.password ctx) /\
  Pub.topic ctx' = (if c =? chr "t" then a else Pub.topic ctx) /\
  Pub.message ctx' = (if c =? chr "m" then a else Pub.message ctx) /\
  Pub.retain ctx' = ((c =? chr "r") || Pub.retain ctx)%bool /\
  Pub.cmd ctx' = Pub.cmd ctx /\
  Pub.exit_code ctx' = Pub.exit_code ctx /\
  (c = chr "p" -> a <> None).

(** The cases of the publisher's [switch], as a relation between the
    reply and the step taken. *)
Inductive pub_case (ctx : Pub.context) (c : Z) (a : option string)
  : step Pub.context -> Prop :=
| pub_case_next ctx' :
    pub_updated ctx c a ctx' -> c <> -1 -> c <> chr "H" ->
    Pub.is_default c = false ->
    pub_case ctx c a (Next ctx')
| pub_case_end :
    c = -1 -> pub_case ctx c a (Last ctx [])
| pub_case_help :
    c = chr "H" ->
    pub_case ctx c a (Last (Pub.set_cmd ctx Pub.COMMAND_SHOW_HELP) [])
| pub_case_default :
    Pub.is_default c = true ->
    pub_case ctx c a
      (Last (Pub.set_cmd (Pub.set_exit_code ctx EXIT_FAILURE)
               Pub.COMMAND_SHOW_HELP)
         [stderr ("error: unknown option" +++ LF)])
| pub_case_fault :
    a = None -> Pub.is_default c = false -> c <> chr "H" -> c <> -1 ->
    pub_case ctx c a Fault.

(** Last write wins: every string field of the publisher's context and
    its port hold what the last reply for their flag in [seen] set, or
    what [ctx0] held. *)
Definition pub_last_wins (seen : list (Z * option string))
    (ctx0 ctx : Pub.context) : Prop :=
  Pub.id ctx = recorded (chr "i") seen (Pub.id ctx0) /\
  Pub.host ctx = recorded (chr "h") seen (Pub.host ctx0) /\
  recorded_port seen (Pub.port ctx0) (Pub.port ctx) /\
  Pub.user ctx = recorded (chr "u") seen (Pub.user ctx0) /\
  Pub.password ctx = recorded (chr "P") seen (Pub.password ctx0) /\
  Pub.topic ctx = recorded (chr "t") seen (Pub.topic ctx0) /\
  Pub.message ctx = recorded (chr "m") seen (Pub.message ctx0).

(** How the loop of the publisher ends, by the reply it stops at. *)
Definition pub_stopped (ctx0 ctx : Pub.context) (out : list event) (c : Z)
  : Prop :=
  (c = -1 /\ Pub.cmd ctx = Pub.cmd ctx0 /\
   Pub.exit_code ctx = Pub.exit_code ctx0 /\ out = []) \/
  (c = chr "H" /\ Pub.cmd ctx = Pub.COMMAND_SHOW_HELP /\
   Pub.exit_code ctx = Pub.exit_code ctx0 /\ out = []) \/
  (Pub.is_default c = true /\ Pub.cmd ctx = Pub.COMMAND_SHOW_HELP /\
   Pub.exit_code ctx = EXIT_FAILURE /\
   out = [stderr ("error: unknown option" +++ LF)]).

(** The condition on the fields in the check that ends [context_init]. *)
Definition pub_required_absent (ctx : Pub.context) : bool :=
  Pub.is_null (Pub.topic ctx) || Pub.is_null (Pub.message ctx).

(** The four ways [context_init] of the publisher ends. *)
Definition pub_initialised (ctx : Pub.context) (out : list event) (c : Z)
  : Prop :=
  (c = -1 /\ pub_required_absent ctx = false /\
   Pub.cmd ctx = Pub.COMMAND_PUB /\ Pub.exit_code ctx = EXIT_SUCCESS /\
   out = []) \/
  (c = -1 /\ pub_required_absent ctx = true /\
   Pub.cmd ctx = Pub.COMMAND_SHOW_HELP /\ Pub.exit_code ctx = EXIT_FAILURE) \/
  (c = chr "H" /\ Pub.cmd ctx = Pub.COMMAND_SHOW_HELP /\
   Pub.exit_code ctx = EXIT_SUCCESS /\ out = []) \/
  (Pub.is_default c = true /\ Pub.cmd ctx = Pub.COMMAND_SHOW_HELP /\
   Pub.exit_code ctx = EXIT_FAILURE).

(** The same notions for the subscriber. *)
Definition sub_updated (ctx : Sub.context) (c : Z) (a : option string)
    (ctx' : Sub.context) : Prop :=
  Sub.id ctx' = (if c =? chr "i" then a else Sub.id ctx) /\
  Sub.host ctx' = (if c =? chr "h" then a else Sub.host ctx) /\
  Sub.port ctx' =
    (if c =? chr "p"
     then match a with Some s => atoi s | None => Sub.port ctx end
     else Sub.port ctx) /\
  Sub.user ctx' = (if c =? chr "u" then a else Sub.user ctx) /\
  Sub.password ctx' = (if c =? chr "P" then a else Sub.password ctx) /\
  Sub.topic ctx' = (if c =? chr "t" then a else Sub.topic ctx) /\
  Sub.retain ctx' = ((c =? chr "r") || Sub.retain ctx)%bool /\
  Sub.cmd ctx' = Sub.cmd ctx /\
  Sub.exit_code ctx' = Sub.exit_code ctx /\
  (c = chr "p" -> a <> None).

Inductive sub_case (ctx : Sub.context) (c : Z) (a : option string)
  : step Sub.context -> Prop :=
| sub_case_next ctx' :
    sub_updated ctx c a ctx' -> c <> -1 -> c <> chr "H" ->
    Sub.is_default c = false ->
    sub_case ctx c a (Next ctx')
| sub_case_end :
    c = -1 -> sub_case ctx c a (Last ctx [])
| sub_case_help :
    c = chr "H" ->
    sub_case ctx c a (Last (Sub.set_cmd ctx Sub.COMMAND_SHOW_HELP) [])
| sub_case_default :
    Sub.is_default c = true ->
    sub_case ctx c a
      (Last (Sub.set_cmd (Sub.set_exit_code ctx EXIT_FAILURE)
               Sub.COMMAND_SHOW_HELP)
         [stderr ("error: unknown option" +++ LF)])
| sub_case_fault :
    a = None -> Sub.is_default c = false -> c <> chr "H" -> c <> -1 ->
    sub_case ctx c a Fault.

Definition sub_last_wins (seen : list (Z * option string))
    (ctx0 ctx : Sub.context) : Prop :=
  Sub.id ctx = recorded (chr "i") seen (Sub.id ctx0) /\
  Sub.host ctx = recorded (chr "h") seen (Sub.host ctx0) /\
  recorded_port seen (Sub.port ctx0) (Sub.port ctx) /\
  Sub.user ctx = recorded (chr "u") seen (Sub.user ctx0) /\
  Sub.password ctx = recorded (chr "P") seen (Sub.password ctx0) /\
  Sub.topic ctx = recorded (chr "t") seen (Sub.topic ctx0).

(** How the loop of the subscriber ends, by the reply it stops at. *)
Definition sub_stopped (ctx0 ctx : Sub.context) (out : list event) (c : Z)
  : Prop :=
  (c = -1 /\ Sub.cmd ctx = Sub.cmd ctx0 /\
   Sub.exit_code ctx = Sub.exit_code ctx0 /\ out = []) \/
  (c = chr "H" /\ Sub.cmd ctx = Sub.COMMAND_SHOW_HELP /\
   Sub.exit_code ctx = Sub.exit_code ctx0 /\ out = []) \/
  (Sub.is_default c = true /\ Sub.cmd ctx = Sub.COMMAND_SHOW_HELP /\
   Sub.exit_code ctx = EXIT_FAILURE /\
   out = [stderr ("error: unknown option" +++ LF)]).

Definition sub_required_absent (ctx : Sub.context) : bool :=
  Sub.is_null (Sub.topic ctx).

(** The four ways [context_init] of the subscriber ends. *)
Definition sub_initialised (ctx : Sub.context) (out : list event) (c : Z)
  : Prop :=
  (c = -1 /\ sub_required_absent ctx = false /\
   Sub.cmd ctx = Sub.COMMAND_SUB /\ Sub.exit_code ctx = EXIT_SUCCESS /\
   out = []) \/
  (c = -1 /\ sub_required_absent ctx = true /\
   Sub.cmd ctx = Sub.COMMAND_SHOW_HELP /\ Sub.exit_code ctx = EXIT_FAILURE) \/
  (c = chr "H" /\ Sub.cmd ctx = Sub.COMMAND_SHOW_HELP /\
   Sub.exit_code ctx = EXIT_SUCCESS /\ out = []) \/
  (Sub.is_default c = true /\ Sub.cmd ctx = Sub.COMMAND_SHOW_HELP /\
   Sub.exit_code ctx = EXIT_FAILURE).

(** Command lines made of well-formed flags: a flag as the usage text
    writes it, by its short spelling, a value flag with its value in
    the next element, or [-r]. *)
Inductive setting :=
| opt_i (v : string)
| opt_h (v : string)
| opt_p (v : string)
| opt_u (v : string)
| opt_P (v : string)
| opt_r
| opt_t (v : string)
| opt_m (v : string).

Definition letter (s : setting) : ascii :=
  match s with
  | opt_i _ => "i" | opt_h _ => "h" | opt_p _ => "p" | opt_u _ => "u"
  | opt_P _ => "P" | opt_r => "r" | opt_t _ => "t" | opt_m _ => "m"
  end%char.

Definition spell (s : setting) : list string :=
  match s with
  | opt_i v => ["-i"; v] | opt_h v => ["-h"; v] | opt_p v => ["-p"; v]
  | opt_u v => ["-u"; v] | opt_P v => ["-P"; v] | opt_r => ["-r"]
  | opt_t v => ["-t"; v] | opt_m v => ["-m"; v]
  end.

Definition command_line (l : list setting) : list string := flat_map spell l.

(** What the publisher's [switch] does with a setting. *)
Definition pub_apply (ctx : Pub.context) (s : setting) : Pub.context :=
  match s with
  | opt_i v => Pub.set_id ctx (Some v)
  | opt_h v => Pub.set_host ctx (Some v)
  | opt_p v => Pub.set_port ctx (atoi v)
  | opt_u v => Pub.set_user ctx (Some v)
  | opt_P v => Pub.set_password ctx (Some v)
  | opt_r => Pub.set_retain ctx true
  | opt_t v => Pub.set_topic ctx (Some v)
  | opt_m v => Pub.set_message ctx (Some v)
  end.

(** The same for the subscriber, which has no [opt_m]. *)
Definition sub_apply (ctx : Sub.context) (s : setting) : Sub.context :=
  match s with
  | opt_i v => Sub.set_id ctx (Some v)
  | opt_h v => Sub.set_host ctx (Some v)
  | opt_p v => Sub.set_port ctx (atoi v)
  | opt_u v => Sub.set_user ctx (Some v)
  | opt_P v => Sub.set_password ctx (Some v)
  | opt_r => Sub.set_retain ctx true
  | opt_t v => Sub.set_topic ctx (Some v)
  | opt_m v => ctx
  end.

(** Sample runs.  A broker that can be reached: every call of the
    collaborator succeeds, and the receive loop is ended by a signal
    that interrupts its first iteration (with [errno] at [EINTR]). *)
Definition reachable_broker : world :=
  mk_world MOSQ_ERR_SUCCESS true MOSQ_ERR_SUCCESS MOSQ_ERR_SUCCESS
    MOSQ_ERR_SUCCESS MOSQ_ERR_SUCCESS false 0
    [mk_loop_reply MOSQ_ERR_SUCCESS [] EINTR true]
    MOSQ_ERR_SUCCESS (fun _ => "Interrupted system call").

(** The same with other replies of [mosquitto_loop], another [errno] at
    the start of the loop and another reply of [mosquitto_unsubscribe]. *)
Definition with_loop_replies (w : world) (errno : Z)
    (replies : list loop_reply) : world :=
  mk_world (lib_init_rc w) (new_ok w) (username_pw_set_rc w) (connect_rc w)
    (publish_rc w) (subscribe_rc w) (signalled_early w) errno replies
    (unsubscribe_rc w) (strerror w).

Definition with_unsubscribe_rc (w : world) (rc : Z) : world :=
  mk_world (lib_init_rc w) (new_ok w) (username_pw_set_rc w) (connect_rc w)
    (publish_rc w) (subscribe_rc w) (signalled_early w) (errno_early w)
    (loop_replies w) rc (strerror w).

(** The events of a run that ended; none otherwise. *)
Definition events_of {A : Type} (o : outcome A) : list event :=
  match o with
  | Ok _ out => out
  | _ => []
  end.

Definition is_connect (e : event) : bool :=
  match e with mosquitto_connect _ _ _ => true | _ => false end.

Definition is_loop (e : event) : bool :=
  match e with mosquitto_loop _ _ => true | _ => false end.

(** The collaborator accepted everything up to the subscription, so
    that [mqtt_sub] enters its receive loop. *)
Definition sub_subscribed (w : world) : Prop :=
  lib_init_rc w = MOSQ_ERR_SUCCESS /\
  new_ok w = true /\
  username_pw_set_rc w = MOSQ_ERR_SUCCESS /\
  connect_rc w = MOSQ_ERR_SUCCESS /\
  subscribe_rc w = MOSQ_ERR_SUCCESS.

(** The events of [mqtt_sub] up to its receive loop. *)
Definition sub_prologue (ctx : Sub.context) : list event :=
  [signal SIGINT; signal SIGTERM; mosquitto_lib_init;
   mosquitto_new (Sub.id ctx) true;
   mosquitto_username_pw_set (Sub.user ctx) (Sub.password ctx);
   mosquitto_message_callback_set;
   mosquitto_connect (Sub.host ctx) (Sub.port ctx) MQTT_KEEPALIVE;
   mosquitto_subscribe (Sub.topic ctx) MQTT_QOS].

(** Whether a buffer holds a NUL byte. *)
Fixpoint has_nul (s : string) : bool :=
  match s with
  | EmptyString => false
  | String a r => Ascii.eqb a NUL || has_nul r
  end.

(* ================================================================= *)
(** ** Notions for the further properties *)

(** The number of events of a kind in a run. *)
Definition count (p : event -> bool) (out : list event) : nat :=
  List.length (filter p out).

Definition is_stdout (e : event) : bool :=
  match e with stdout _ => true | _ => false end.

Definition is_stderr (e : event) : bool :=
  match e with stderr _ => true | _ => false end.

Definition is_lib_init (e : event) : bool :=
  match e with mosquitto_lib_init => true | _ => false end.

Definition is_lib_cleanup (e : event) : bool :=
  match e with mosquitto_lib_cleanup => true | _ => false end.

Definition is_new (e : event) : bool :=
  match e with mosquitto_new _ _ => true | _ => false end.

Definition is_destroy (e : event) : bool :=
  match e with mosquitto_destroy => true | _ => false end.

Definition is_subscribe (e : event) : bool :=
  match e with mosquitto_subscribe _ _ => true | _ => false end.

Definition is_callback_set (e : event) : bool :=
  match e with mosquitto_message_callback_set => true | _ => false end.

(** How far the collaborator lets the publisher get: the calls of
    [mqtt_pub] in their order, each made only when the one before
    succeeded. *)
Definition lib_ready (w : world) : bool := negb (Pub.failed (lib_init_rc w)).
Definition handle_ready (w : world) : bool := lib_ready w && new_ok w.
Definition login_ready (w : world) : bool :=
  handle_ready w && negb (Pub.failed (username_pw_set_rc w)).
Definition connected (w : world) : bool :=
  login_ready w && negb (Pub.failed (connect_rc w)).
Definition published (w : world) : bool :=
  connected w && negb (Pub.failed (publish_rc w)).
Definition subscribed (w : world) : bool :=
  connected w && negb (Pub.failed (subscribe_rc w)).

Definition one_if (b : bool) : nat := if b then 1%nat else 0%nat.

Definition is_username_pw_set (e : event) : bool :=
  match e with mosquitto_username_pw_set _ _ => true | _ => false end.

(** A reply of [mosquitto_loop] after which the receive loop goes on:
    success, and no signal meanwhile. *)
Definition loop_goes_on (r : loop_reply) : bool :=
  (loop_rc r =? MOSQ_ERR_SUCCESS) && negb (signalled r).

(** The blocks [mqtt_on_message] prints for the messages of replies. *)
Definition blocks (replies : list loop_reply) : list event :=
  flat_map Sub.mqtt_on_message (flat_map delivered replies).

(** The option loop of [context_init] from a context [ctx] on the
    arguments [args], with the fuel [context_init] gives it. *)
Definition pub_options (posixly_correct : bool) (ctx : Pub.context)
    (args : list string) : outcome Pub.context :=
  option_loop posixly_correct Pub.optstring Pub.long_opts Pub.option_case
    (enough_fuel args) ctx (getopt_start args).

Definition sub_options (posixly_correct : bool) (ctx : Sub.context)
    (args : list string) : outcome Sub.context :=
  option_loop posixly_correct Sub.optstring Sub.long_opts Sub.option_case
    (enough_fuel args) ctx (getopt_start args).

(** The value a setting carries; [-r] carries none. *)
Definition value_of (s : setting) : option string :=
  match s with
  | opt_i v | opt_h v | opt_p v | opt_u v | opt_P v | opt_t v | opt_m v =>
      Some v
  | opt_r => None
  end.

(** The value of the last setting of a command line with the letter
    [c], and whether there is a setting with that letter. *)
Fixpoint last_value (c : ascii) (l : list setting) : option string :=
  match l with
  | [] => None
  | s :: tl =>
      match last_value c tl with
      | Some v => Some v
      | None => if Ascii.eqb (letter s) c then value_of s else None
      end
  end.

Definition flagged (c : ascii) (l : list setting) : bool :=
  existsb (fun s => Ascii.eqb (letter s) c) l.

(** A value flag with its value attached, as in [-ttest]. *)
Definition spell_attached (s : setting) : list string :=
  match s with
  | opt_i v => ["-i" +++ v] | opt_h v => ["-h" +++ v] | opt_p v => ["-p" +++ v]
  | opt_u v => ["-u" +++ v] | opt_P v => ["-P" +++ v] | opt_r => ["-r"]
  | opt_t v => ["-t" +++ v] | opt_m v => ["-m" +++ v]
  end.

Definition command_line_attached (l : list setting) : list string :=
  flat_map spell_attached l.

Definition has_value (s : setting) : bool :=
  match value_of s with
  | Some EmptyString => false
  | _ => true
  end.

Definition or_else (o d : option string) : option string :=
  match o with
  | Some v => Some v
  | None => d
  end.

(** The fields of the publisher's context after the settings [l] have
    been applied to [ctx0]: each holds the value of the last setting
    for it. *)
Definition pub_settled (l : list setting) (ctx0 ctx : Pub.context) : Prop :=
  Pub.id ctx = or_else (last_value "i" l) (Pub.id ctx0) /\
  Pub.host ctx = or_else (last_value "h" l) (Pub.host ctx0) /\
  Pub.port ctx = match last_value "p" l with
                 | Some v => atoi v
                 | None => Pub.port ctx0
                 end /\
  Pub.user ctx = or_else (last_value "u" l) (Pub.user ctx0) /\
  Pub.password ctx = or_else (last_value "P" l) (Pub.password ctx0) /\
  Pub.topic ctx = or_else (last_value "t" l) (Pub.topic ctx0) /\
  Pub.message ctx = or_else (last_value "m" l) (Pub.message ctx0) /\
  Pub.retain ctx = (flagged "r" l || Pub.retain ctx0)%bool.

Definition sub_settled (l : list setting) (ctx0 ctx : Sub.context) : Prop :=
  Sub.id ctx = or_else (last_value "i" l) (Sub.id ctx0) /\
  Sub.host ctx = or_else (last_value "h" l) (Sub.host ctx0) /\
  Sub.port ctx = match last_value "p" l with
                 | Some v => atoi v
                 | None => Sub.port ctx0
                 end /\
  Sub.user ctx = or_else (last_value "u" l) (Sub.user ctx0) /\
  Sub.password ctx = or_else (last_value "P" l) (Sub.password ctx0) /\
  Sub.topic ctx = or_else (last_value "t" l) (Sub.topic ctx0) /\
  Sub.retain ctx = (flagged "r" l || Sub.retain ctx0)%bool.

(** The context the [default] case of the publisher's [switch] leaves. *)
Definition pub_refused (ctx : Pub.context) : Pub.context :=
  Pub.set_cmd (Pub.set_exit_code ctx EXIT_FAILURE) Pub.COMMAND_SHOW_HELP.

Definition sub_refused (ctx : Sub.context) : Sub.context :=
  Sub.set_cmd (Sub.set_exit_code ctx EXIT_FAILURE) Sub.COMMAND_SHOW_HELP.

Definition unknown_option : list event :=
  [stderr ("error: unknown option" +++ LF)].

(** The letters that are a case of the [switch], per program. *)
Definition pub_letter (c : ascii) : bool :=
  existsb (Ascii.eqb c) ["i"; "h"; "p"; "u"; "P"; "r"; "t"; "m"; "H"]%char.

Definition sub_letter (c : ascii) : bool :=
  existsb (Ascii.eqb c) ["i"; "h"; "p"; "u"; "P"; "r"; "t"; "H"]%char.

(** More sample runs: a broker that refuses the connection, and
    contexts as [context_init] leaves them for [-t test -m hello] and
    for [-t test]. *)
Definition MOSQ_ERR_ERRNO : Z := 14.

Definition unreachable_broker : world :=
  mk_world MOSQ_ERR_SUCCESS true MOSQ_ERR_SUCCESS MOSQ_ERR_ERRNO
    MOSQ_ERR_SUCCESS MOSQ_ERR_SUCCESS false 0 [] MOSQ_ERR_SUCCESS
    (fun _ => "Connection refused").

Definition pub_sample : Pub.context :=
  Pub.set_message (Pub.set_topic Pub.initial (Some "test")) (Some "hello").

Definition sub_sample : Sub.context :=
  Sub.set_topic Sub.initial (Some "test").

(** Replies of [mosquitto_loop]: two quiet iterations, the second
    delivering a message, then a lost connection, then one more. *)
Definition sample_replies : list loop_reply :=
  [mk_loop_reply MOSQ_ERR_SUCCESS [] 0 false;
   mk_loop_reply MOSQ_ERR_SUCCESS [mk_message 1 "test" "hello" 5 false] 0 false;
   mk_loop_reply MOSQ_ERR_CONN_LOST [] 0 false;
   mk_loop_reply MOSQ_ERR_SUCCESS [mk_message 2 "test" "late" 4 false] 0 false].






(* ================================================================= *)
(** * Properties *)

(** ** The scanner makes progress *)

Lemma weight_eq (nc : string) (args : list string) :
  weight (mk_data nc args) = (String.length nc + args_weight args)%nat.
Proof. reflexivity. Qed.

Lemma skip_nonoptions_weight (args : list string) :
  (args_weight (skip_nonoptions args) <= args_weight args)%nat.
Proof.
  induction args as [|a tl IH]; simpl; [lia|].
  destruct (NONOPTION_P a); simpl; lia.
Qed.

Lemma chr_nonneg (a : ascii) : 0 <= chr a.
Proof. unfold chr. lia. Qed.

Lemma missing_argument_nonneg (os : string) : 0 <= missing_argument os.
Proof.
  unfold missing_argument.
  destruct os as [|a r]; [apply chr_nonneg|].
  destruct (Ascii.eqb a ":") eqn:E.
  - apply Ascii.eqb_eq in E. subst a. apply chr_nonneg.
  - destruct a as [[] [] [] [] [] [] [] []]; try apply chr_nonneg.
Qed.

Lemma short_option_progress os c nc args r a d' :
  short_option os c nc args = (r, a, d') ->
  (weight d' <= String.length nc + args_weight args)%nat.
Proof.
  unfold short_option. intros H.
  repeat match type of H with
         | context [match ?x with _ => _ end] => destruct x
         end;
    inversion H; subst; rewrite weight_eq; simpl; lia.
Qed.

Lemma process_long_option_progress os lo nc args r a d' :
  process_long_option os lo nc args = (r, a, d') ->
  (weight d' <= args_weight args)%nat.
Proof.
  unfold process_long_option. intros H.
  destruct (split_name nc) as [nm value].
  repeat match type of H with
         | context [match ?x with _ => _ end] => destruct x
         end;
    inversion H; subst; rewrite weight_eq; simpl; lia.
Qed.

Lemma getopt_step_progress ord os lo d r a d' :
  getopt_step ord os lo d = (r, a, d') ->
  r <> -1 ->
  (weight d' < weight d)%nat.
Proof.
  destruct d as [nc args]. unfold getopt_step. simpl.
  destruct nc as [|c nc'].
  - set (args' := match ord with PERMUTE => skip_nonoptions args | _ => args end).
    assert (Hle : (args_weight args' <= args_weight args)%nat).
    { subst args'. destruct ord; try lia. apply skip_nonoptions_weight. }
    clearbody args'. rewrite weight_eq. simpl.
    destruct args' as [|x tl]; [intros H; inversion H; subst; congruence|].
    simpl in Hle.
    destruct (String.eqb x "--"); [intros H; inversion H; subst; congruence|].
    destruct (NONOPTION_P x).
    + destruct ord; intros H Hr; inversion H; subst; try congruence.
      rewrite weight_eq. simpl. lia.
    + destruct x as [|x0 [|x1 xr]]; try (intros H; inversion H; subst; congruence).
      destruct (Ascii.eqb x1 "-") eqn:E.
      * apply Ascii.eqb_eq in E. subst x1. intros H _.
        apply process_long_option_progress in H. simpl in Hle. lia.
      * assert (Hs : forall T (k1 : string -> T) (k2 : ascii -> string -> T),
                   match x1 with
                   | "-"%char => k1 xr
                   | _ => k2 x1 xr
                   end = k2 x1 xr).
        { intros. destruct x1 as [[] [] [] [] [] [] [] []]; try reflexivity.
          discriminate E. }
        intros H _.
        assert (H' : short_option os x1 xr tl = (r, a, d')).
        { rewrite <- H. symmetry.
          apply (Hs _ (fun nm => process_long_option os lo nm tl)
                      (fun c nc => short_option os c nc tl)). }
        apply short_option_progress in H'. simpl in Hle. lia.
  - intros H _. apply short_option_progress in H. rewrite weight_eq. simpl. lia.
Qed.

Lemma getopt_long_progress posix os lo d r a d' :
  getopt_long posix os lo d = (r, a, d') ->
  r <> -1 ->
  (weight d' < weight d)%nat.
Proof.
  unfold getopt_long. destruct (getopt_initialize posix os) as [ord os'].
  apply getopt_step_progress.
Qed.

(** ** The option loop *)

Section OptionLoopFacts.

Context {context : Type}.
Variable posixly_correct : bool.
Variable optstring : string.
Variable long_opts : list long_option.
Variable option_case : context -> Z -> option string -> step context.

(** [case -1: done = true]. *)
Hypothesis end_of_options :
  forall ctx optarg, option_case ctx (-1) optarg = Last ctx [].

Local Abbreviation loop :=
  (option_loop posixly_correct optstring long_opts option_case).
Local Abbreviation calls := (getopt_calls posixly_correct optstring long_opts).
Local Abbreviation run := (run_cases option_case).

Lemma option_loop_run_cases (fuel : nat) (ctx : context) (d : getopt_data) :
  loop fuel ctx d = run ctx (calls fuel d).
Proof.
  revert ctx d.
  induction fuel as [|fuel IH]; intros ctx d; simpl; [reflexivity|].
  destruct (getopt_long posixly_correct optstring long_opts d)
    as [[c optarg] d'].
  simpl. destruct (Z.eqb_spec c (-1)) as [->|Hc].
  - rewrite end_of_options. reflexivity.
  - destruct (option_case ctx c optarg); auto.
Qed.

Lemma getopt_calls_fuel (f1 f2 : nat) (d : getopt_data) :
  (weight d < f1)%nat -> (weight d < f2)%nat -> calls f1 d = calls f2 d.
Proof.
  revert f2 d.
  induction f1 as [|f1 IH]; intros f2 d H1 H2; [lia|].
  destruct f2 as [|f2]; [lia|]. simpl.
  destruct (getopt_long posixly_correct optstring long_opts d)
    as [[c optarg] d'] eqn:E.
  destruct (Z.eqb_spec c (-1)) as [->|Hc]; [reflexivity|].
  f_equal. apply getopt_long_progress in E; [|exact Hc].
  apply IH; lia.
Qed.

Lemma option_loop_fuel (f1 f2 : nat) (ctx : context) (d : getopt_data) :
  (weight d < f1)%nat -> (weight d < f2)%nat -> loop f1 ctx d = loop f2 ctx d.
Proof.
  intros H1 H2. rewrite !option_loop_run_cases.
  f_equal. apply getopt_calls_fuel; assumption.
Qed.

(** With fuel above the weight of the state the loop comes to an end. *)
Lemma option_loop_finishes (fuel : nat) (ctx : context) (d : getopt_data) :
  (weight d < fuel)%nat -> loop fuel ctx d <> Unfinished.
Proof.
  revert ctx d.
  induction fuel as [|fuel IH]; intros ctx d H; [lia|]. simpl.
  destruct (getopt_long posixly_correct optstring long_opts d)
    as [[c optarg] d'] eqn:E.
  destruct (Z.eqb_spec c (-1)) as [->|Hc].
  - rewrite end_of_options. discriminate.
  - apply getopt_long_progress in E; [|exact Hc].
    destruct (option_case ctx c optarg); try discriminate.
    apply IH. lia.
Qed.

(** The loop only depends on the replies it consumes. *)
Lemma run_cases_consumed (ctx : context) (l : list (Z * option string)) :
  run ctx (consumed option_case ctx l) = run ctx l.
Proof.
  revert ctx.
  induction l as [|[c optarg] tl IH]; intros ctx; simpl; [reflexivity|].
  destruct (option_case ctx c optarg); auto.
Qed.

Lemma consumed_incl (ctx : context) (l : list (Z * option string)) :
  incl (consumed option_case ctx l) l.
Proof.
  revert ctx.
  induction l as [|[c optarg] tl IH]; intros ctx; simpl; [apply incl_refl|].
  destruct (option_case ctx c optarg);
    try (apply incl_cons; [left; reflexivity | apply incl_nil_l]).
  apply incl_cons; [left; reflexivity|]. apply incl_tl. apply IH.
Qed.

End OptionLoopFacts.

Lemma recorded_cons c c' a tl init :
  recorded c ((c', a) :: tl) init = recorded c tl (if c' =? c then a else init).
Proof.
  unfold recorded. simpl.
  destruct (last_optarg c tl); [reflexivity|]. destruct (c' =? c); reflexivity.
Qed.

Lemma last_optarg_In c a l : last_optarg c l = Some a -> In (c, a) l.
Proof.
  induction l as [|[c' a'] tl IH]; simpl; [discriminate|].
  destruct (last_optarg c tl) as [b|].
  - intros H. inversion H; subst. right. apply IH. reflexivity.
  - destruct (Z.eqb_spec c' c) as [->|]; [|discriminate].
    intros H. inversion H; subst. left. reflexivity.
Qed.

Lemma last_optarg_absent c l :
  replies_with c l = false -> last_optarg c l = None.
Proof.
  unfold replies_with.
  induction l as [|[c' a'] tl IH]; simpl; [reflexivity|].
  intros H. apply orb_false_iff in H. destruct H as [H1 H2].
  rewrite (IH H2), H1. reflexivity.
Qed.

Lemma replies_with_incl c l l' :
  incl l l' -> replies_with c l' = false -> replies_with c l = false.
Proof.
  unfold replies_with. intros Hi H.
  destruct (existsb (fun r => fst r =? c) l) eqn:E; [|reflexivity].
  apply existsb_exists in E. destruct E as [x [Hx Hc]].
  assert (E' : existsb (fun r => fst r =? c) l' = true).
  { apply existsb_exists. exists x. split; [apply Hi, Hx | exact Hc]. }
  congruence.
Qed.

Lemma recorded_port_cons c a tl init port :
  recorded_port tl
    (if c =? chr "p"
     then match a with Some s => atoi s | None => init end
     else init) port ->
  (c = chr "p" -> a <> None) ->
  recorded_port ((c, a) :: tl) init port.
Proof.
  unfold recorded_port. simpl.
  destruct (last_optarg (chr "p") tl) as [[s|]|]; auto.
  destruct (Z.eqb_spec c (chr "p")) as [->|]; auto.
  intros H Ha. destruct a; [exact H|]. elim Ha; reflexivity.
Qed.

(** ** The switch of the publisher, case by case *)

Ltac case_label c k :=
  destruct (Z.eqb_spec c k) as [->|].

Ltac not_default :=
  unfold Pub.is_default, Pub.case_labels, Sub.is_default, Sub.case_labels;
  simpl existsb;
  repeat match goal with
         | H : ?c <> ?k |- context [?c =? ?k] =>
             rewrite (proj2 (Z.eqb_neq c k) H)
         end;
  reflexivity.

Lemma pub_option_case_spec ctx c a :
  pub_case ctx c a (Pub.option_case ctx c a).
Proof.
  unfold Pub.option_case.
  case_label c (-1); [apply pub_case_end; reflexivity|].
  case_label c (chr "i").
  { destruct a; [apply pub_case_next | apply pub_case_fault];
      try reflexivity; try discriminate.
    repeat split; try reflexivity; discriminate. }
  case_label c (chr "h").
  { destruct a; [apply pub_case_next | apply pub_case_fault];
      try reflexivity; try discriminate.
    repeat split; try reflexivity; discriminate. }
  case_label c (chr "p").
  { destruct a; [apply pub_case_next | apply pub_case_fault];
      try reflexivity; try discriminate.
    repeat split; try reflexivity; discriminate. }
  case_label c (chr "u").
  { destruct a; [apply pub_case_next | apply pub_case_fault];
      try reflexivity; try discriminate.
    repeat split; try reflexivity; discriminate. }
  case_label c (chr "P").
  { destruct a; [apply pub_case_next | apply pub_case_fault];
      try reflexivity; try discriminate.
    repeat split; try reflexivity; discriminate. }
  case_label c (chr "r").
  { apply pub_case_next; try reflexivity; try discriminate.
    repeat split; try reflexivity; discriminate. }
  case_label c (chr "t").
  { destruct a; [apply pub_case_next | apply pub_case_fault];
      try reflexivity; try discriminate.
    repeat split; try reflexivity; discriminate. }
  case_label c (chr "m").
  { destruct a; [apply pub_case_next | apply pub_case_fault];
      try reflexivity; try discriminate.
    repeat split; try reflexivity; discriminate. }
  case_label c (chr "H"); [apply pub_case_help; reflexivity|].
  apply pub_case_default. not_default.
Qed.

Lemma pub_default_neq c k :
  Pub.is_default c = true -> In k Pub.case_labels -> (c =? k) = false.
Proof.
  unfold Pub.is_default. intros H Hk.
  apply negb_true_iff in H.
  destruct (c =? k) eqn:E; [|reflexivity].
  assert (existsb (Z.eqb c) Pub.case_labels = true); [|congruence].
  apply existsb_exists. exists k. split; assumption.
Qed.

Lemma pub_last_wins_stop c a ctx0 ctx :
  (forall k, In k Pub.case_labels -> k <> -1 -> k <> chr "H" -> (c =? k) = false) ->
  Pub.id ctx = Pub.id ctx0 -> Pub.host ctx = Pub.host ctx0 ->
  Pub.port ctx = Pub.port ctx0 -> Pub.user ctx = Pub.user ctx0 ->
  Pub.password ctx = Pub.password ctx0 -> Pub.topic ctx = Pub.topic ctx0 ->
  Pub.message ctx = Pub.message ctx0 ->
  pub_last_wins [(c, a)] ctx0 ctx.
Proof.
  intros Hc H1 H2 H3 H4 H5 H6 H7.
  unfold pub_last_wins, recorded, recorded_port. simpl.
  rewrite !Hc by (simpl; try tauto; discriminate).
  repeat split; assumption.
Qed.

Lemma pub_run_cases_fields l : forall ctx0 ctx out,
  run_cases Pub.option_case ctx0 l = Ok ctx out ->
  pub_last_wins (consumed Pub.option_case ctx0 l) ctx0 ctx.
Proof.
  induction l as [|[c a] tl IH]; intros ctx0 ctx out H; simpl in *;
    [discriminate|].
  destruct (pub_option_case_spec ctx0 c a) as [ctx1 U _ _ _|E|E|D|].
  - specialize (IH _ _ _ H).
    destruct U as (U1 & U2 & U3 & U4 & U5 & U6 & U7 & _ & _ & _ & Up).
    destruct IH as (I1 & I2 & I3 & I4 & I5 & I6 & I7).
    unfold pub_last_wins. rewrite !recorded_cons.
    rewrite <- U1, <- U2, <- U4, <- U5, <- U6, <- U7.
    repeat split; try assumption.
    apply recorded_port_cons; [rewrite <- U3; exact I3 | exact Up].
  - inversion H; subst. apply pub_last_wins_stop; try reflexivity.
    intros k _ Hk _. apply Z.eqb_neq. congruence.
  - inversion H; subst. apply pub_last_wins_stop; try reflexivity.
    intros k _ _ Hk. apply Z.eqb_neq. congruence.
  - inversion H; subst. apply pub_last_wins_stop; try reflexivity.
    intros k Hk _ _. apply pub_default_neq; assumption.
  - discriminate.
Qed.

Lemma pub_run_cases_status l : forall ctx0 ctx out,
  run_cases Pub.option_case ctx0 l = Ok ctx out ->
  exists c a, stop_case Pub.option_case ctx0 l = Some (c, a) /\
              pub_stopped ctx0 ctx out c.
Proof.
  induction l as [|[c a] tl IH]; intros ctx0 ctx out H; simpl in *;
    [discriminate|].
  destruct (pub_option_case_spec ctx0 c a) as [ctx1 U _ _ _|E|E|D|].
  - destruct (IH _ _ _ H) as (c' & a' & Hs & Hst).
    exists c', a'. split; [exact Hs|].
    destruct U as (_ & _ & _ & _ & _ & _ & _ & _ & Uc & Ue & _).
    unfold pub_stopped in *. rewrite <- Uc, <- Ue. exact Hst.
  - inversion H; subst. exists (-1), a. split; [reflexivity|].
    left. repeat split; reflexivity.
  - inversion H; subst. exists (chr "H"), a. split; [reflexivity|].
    right; left. repeat split; reflexivity.
  - inversion H; subst. exists c, a. split; [reflexivity|].
    right; right. repeat split; try reflexivity. exact D.
  - discriminate.
Qed.

Lemma pub_context_init_run posix args :
  Pub.context_init posix args =
  match run_cases Pub.option_case Pub.initial (pub_calls posix args) with
  | Ok ctx out =>
      let '(ctx', out') := Pub.check_required ctx out in Ok ctx' out'
  | Undefined => Undefined
  | Unfinished => Unfinished
  end.
Proof.
  unfold Pub.context_init, pub_calls.
  rewrite option_loop_run_cases; reflexivity.
Qed.

(** [context_init] of the publisher always comes to an end. *)
Lemma pub_context_init_finishes posix args :
  Pub.context_init posix args <> Unfinished.
Proof.
  unfold Pub.context_init.
  pose proof (option_loop_finishes posix Pub.optstring Pub.long_opts
                Pub.option_case (fun _ _ => eq_refl)
                (enough_fuel args) Pub.initial (getopt_start args)) as H.
  destruct (option_loop _ _ _ _ _ _ _) as [ctx out| |].
  - destruct (Pub.check_required ctx out). discriminate.
  - discriminate.
  - elim H; [unfold enough_fuel; lia | reflexivity].
Qed.

Lemma pub_context_init_ok posix args ctx out :
  Pub.context_init posix args = Ok ctx out ->
  pub_last_wins (pub_seen posix args) Pub.initial ctx /\
  exists c a, pub_stop posix args = Some (c, a) /\ pub_initialised ctx out c.
Proof.
  rewrite pub_context_init_run. unfold pub_seen, pub_stop.
  destruct (run_cases Pub.option_case Pub.initial (pub_calls posix args))
    as [ctx1 out1| |] eqn:R; try discriminate.
  pose proof (pub_run_cases_fields _ _ _ _ R) as F.
  destruct (pub_run_cases_status _ _ _ _ R) as (c & a & Hs & Hst).
  unfold Pub.check_required.
  destruct (Pub.is_pub (Pub.cmd ctx1)
            && (Pub.is_null (Pub.topic ctx1) || Pub.is_null (Pub.message ctx1)))
    eqn:Q; intros H; inversion H; subst; clear H.
  - split; [exact F|]. exists c, a. split; [exact Hs|].
    apply andb_true_iff in Q. destruct Q as [Qc Qr].
    destruct Hst as [(-> & Hc & He & Ho)|[(-> & Hc & He & Ho)|(D & Hc & He & Ho)]].
    + right; left. repeat split; assumption.
    + rewrite Hc in Qc. discriminate.
    + rewrite Hc in Qc. discriminate.
  - split; [exact F|]. exists c, a. split; [exact Hs|].
    destruct Hst as [(-> & Hc & He & Ho)|[(-> & Hc & He & Ho)|(D & Hc & He & Ho)]].
    + left. simpl in Hc. rewrite Hc in Q. simpl in Q.
      repeat split; assumption.
    + right; right; left. repeat split; assumption.
    + right; right; right. repeat split; assumption.
Qed.

(** ** The switch of the subscriber, case by case

    The same facts for [mqtt_sub.c], whose context has no message and
    whose [switch] has no [case 'm']. *)

Lemma sub_option_case_spec ctx c a :
  sub_case ctx c a (Sub.option_case ctx c a).
Proof.
  unfold Sub.option_case.
  case_label c (-1); [apply sub_case_end; reflexivity|].
  case_label c (chr "i").
  { destruct a; [apply sub_case_next | apply sub_case_fault];
      try reflexivity; try discriminate.
    repeat split; try reflexivity; discriminate. }
  case_label c (chr "h").
  { destruct a; [apply sub_case_next | apply sub_case_fault];
      try reflexivity; try discriminate.
    repeat split; try reflexivity; discriminate. }
  case_label c (chr "p").
  { destruct a; [apply sub_case_next | apply sub_case_fault];
      try reflexivity; try discriminate.
    repeat split; try reflexivity; discriminate. }
  case_label c (chr "u").
  { destruct a; [apply sub_case_next | apply sub_case_fault];
      try reflexivity; try discriminate.
    repeat split; try reflexivity; discriminate. }
  case_label c (chr "P").
  { destruct a; [apply sub_case_next | apply sub_case_fault];
      try reflexivity; try discriminate.
    repeat split; try reflexivity; discriminate. }
  case_label c (chr "r").
  { apply sub_case_next; try reflexivity; try discriminate.
    repeat split; try reflexivity; discriminate. }
  case_label c (chr "t").
  { destruct a; [apply sub_case_next | apply sub_case_fault];
      try reflexivity; try discriminate.
    repeat split; try reflexivity; discriminate. }
  case_label c (chr "H"); [apply sub_case_help; reflexivity|].
  apply sub_case_default. not_default.
Qed.

Lemma sub_default_neq c k :
  Sub.is_default c = true -> In k Sub.case_labels -> (c =? k) = false.
Proof.
  unfold Sub.is_default. intros H Hk.
  apply negb_true_iff in H.
  destruct (c =? k) eqn:E; [|reflexivity].
  assert (existsb (Z.eqb c) Sub.case_labels = true); [|congruence].
  apply existsb_exists. exists k. split; assumption.
Qed.

Lemma sub_last_wins_stop c a ctx0 ctx :
  (forall k, In k Sub.case_labels -> k <> -1 -> k <> chr "H" -> (c =? k) = false) ->
  Sub.id ctx = Sub.id ctx0 -> Sub.host ctx = Sub.host ctx0 ->
  Sub.port ctx = Sub.port ctx0 -> Sub.user ctx = Sub.user ctx0 ->
  Sub.password ctx = Sub.password ctx0 -> Sub.topic ctx = Sub.topic ctx0 ->
  sub_last_wins [(c, a)] ctx0 ctx.
Proof.
  intros Hc H1 H2 H3 H4 H5 H6.
  unfold sub_last_wins, recorded, recorded_port. simpl.
  rewrite !Hc by (simpl; try tauto; discriminate).
  repeat split; assumption.
Qed.

Lemma sub_run_cases_fields l : forall ctx0 ctx out,
  run_cases Sub.option_case ctx0 l = Ok ctx out ->
  sub_last_wins (consumed Sub.option_case ctx0 l) ctx0 ctx.
Proof.
  induction l as [|[c a] tl IH]; intros ctx0 ctx out H; simpl in *;
    [discriminate|].
  destruct (sub_option_case_spec ctx0 c a) as [ctx1 U _ _ _|E|E|D|].
  - specialize (IH _ _ _ H).
    destruct U as (U1 & U2 & U3 & U4 & U5 & U6 & _ & _ & _ & Up).
    destruct IH as (I1 & I2 & I3 & I4 & I5 & I6).
    unfold sub_last_wins. rewrite !recorded_cons.
    rewrite <- U1, <- U2, <- U4, <- U5, <- U6.
    repeat split; try assumption.
    apply recorded_port_cons; [rewrite <- U3; exact I3 | exact Up].
  - inversion H; subst. apply sub_last_wins_stop; try reflexivity.
    intros k _ Hk _. apply Z.eqb_neq. congruence.
  - inversion H; subst. apply sub_last_wins_stop; try reflexivity.
    intros k _ _ Hk. apply Z.eqb_neq. congruence.
  - inversion H; subst. apply sub_last_wins_stop; try reflexivity.
    intros k Hk _ _. apply sub_default_neq; assumption.
  - discriminate.
Qed.

Lemma sub_run_cases_status l : forall ctx0 ctx out,
  run_cases Sub.option_case ctx0 l = Ok ctx out ->
  exists c a, stop_case Sub.option_case ctx0 l = Some (c, a) /\
              sub_stopped ctx0 ctx out c.
Proof.
  induction l as [|[c a] tl IH]; intros ctx0 ctx out H; simpl in *;
    [discriminate|].
  destruct (sub_option_case_spec ctx0 c a) as [ctx1 U _ _ _|E|E|D|].
  - destruct (IH _ _ _ H) as (c' & a' & Hs & Hst).
    exists c', a'. split; [exact Hs|].
    destruct U as (_ & _ & _ & _ & _ & _ & _ & Uc & Ue & _).
    unfold sub_stopped in *. rewrite <- Uc, <- Ue. exact Hst.
  - inversion H; subst. exists (-1), a. split; [reflexivity|].
    left. repeat split; reflexivity.
  - inversion H; subst. exists (chr "H"), a. split; [reflexivity|].
    right; left. repeat split; reflexivity.
  - inversion H; subst. exists c, a. split; [reflexivity|].
    right; right. repeat split; try reflexivity. exact D.
  - discriminate.
Qed.

Lemma sub_context_init_run posix args :
  Sub.context_init posix args =
  match run_cases Sub.option_case Sub.initial (sub_calls posix args) with
  | Ok ctx out =>
      let '(ctx', out') := Sub.check_required ctx out in Ok ctx' out'
  | Undefined => Undefined
  | Unfinished => Unfinished
  end.
Proof.
  unfold Sub.context_init, sub_calls.
  rewrite option_loop_run_cases; reflexivity.
Qed.

(** [context_init] of the subscriber always comes to an end. *)
Lemma sub_context_init_finishes posix args :
  Sub.context_init posix args <> Unfinished.
Proof.
  unfold Sub.context_init.
  pose proof (option_loop_finishes posix Sub.optstring Sub.long_opts
                Sub.option_case (fun _ _ => eq_refl)
                (enough_fuel args) Sub.initial (getopt_start args)) as H.
  destruct (option_loop _ _ _ _ _ _ _) as [ctx out| |].
  - destruct (Sub.check_required ctx out). discriminate.
  - discriminate.
  - elim H; [unfold enough_fuel; lia | reflexivity].
Qed.

Lemma sub_context_init_ok posix args ctx out :
  Sub.context_init posix args = Ok ctx out ->
  sub_last_wins (sub_seen posix args) Sub.initial ctx /\
  exists c a, sub_stop posix args = Some (c, a) /\ sub_initialised ctx out c.
Proof.
  rewrite sub_context_init_run. unfold sub_seen, sub_stop.
  destruct (run_cases Sub.option_case Sub.initial (sub_calls posix args))
    as [ctx1 out1| |] eqn:R; try discriminate.
  pose proof (sub_run_cases_fields _ _ _ _ R) as F.
  destruct (sub_run_cases_status _ _ _ _ R) as (c & a & Hs & Hst).
  unfold Sub.check_required.
  destruct (Sub.is_sub (Sub.cmd ctx1) && Sub.is_null (Sub.topic ctx1))
    eqn:Q; intros H; inversion H; subst; clear H.
  - split; [exact F|]. exists c, a. split; [exact Hs|].
    apply andb_true_iff in Q. destruct Q as [Qc Qr].
    destruct Hst as [(-> & Hc & He & Ho)|[(-> & Hc & He & Ho)|(D & Hc & He & Ho)]].
    + right; left. repeat split; assumption.
    + rewrite Hc in Qc. discriminate.
    + rewrite Hc in Qc. discriminate.
  - split; [exact F|]. exists c, a. split; [exact Hs|].
    destruct Hst as [(-> & Hc & He & Ho)|[(-> & Hc & He & Ho)|(D & Hc & He & Ho)]].
    + left. simpl in Hc. rewrite Hc in Q. simpl in Q.
      repeat split; assumption.
    + right; right; left. repeat split; assumption.
    + right; right; right. repeat split; assumption.
Qed.






(** ** Command lines made of well-formed flags *)









(* ================================================================= *)
(** * The claims *)

(** ** C1: unknown flags and missing required fields *)






(** ** C9: default host and port *)

Lemma recorded_absent c seen calls init :
  incl seen calls -> replies_with c calls = false ->
  recorded c seen init = init.
Proof.
  intros Hi H. unfold recorded.
  rewrite last_optarg_absent; [reflexivity|].
  apply (replies_with_incl _ _ _ Hi H).
Qed.

Lemma recorded_port_absent seen calls init port :
  incl seen calls -> replies_with (chr "p") calls = false ->
  recorded_port seen init port -> port = init.
Proof.
  intros Hi H. unfold recorded_port.
  rewrite last_optarg_absent; [auto|].
  apply (replies_with_incl _ _ _ Hi H).
Qed.

(** C9.  In both programs: when no reply of the scanner over the
    argument vector is the host flag or the port flag, the configuration
    [context_init] yields has host "localhost" and port 1883. *)
Theorem default_host_and_port (posix : bool) (args : list string) :
  (forall ctx out,
      Pub.context_init posix args = Ok ctx out ->
      replies_with (chr "h") (pub_calls posix args) = false ->
      replies_with (chr "p") (pub_calls posix args) = false ->
      Pub.host ctx = Some "localhost" /\ Pub.port ctx = 1883)
  /\
  (forall ctx out,
      Sub.context_init posix args = Ok ctx out ->
      replies_with (chr "h") (sub_calls posix args) = false ->
      replies_with (chr "p") (sub_calls posix args) = false ->
      Sub.host ctx = Some "localhost" /\ Sub.port ctx = 1883).
Proof.
  split; intros ctx out H Hh Hp.
  - apply pub_context_init_ok in H.
    destruct H as ((_ & Fh & Fp & _) & _).
    assert (Hi : incl (pub_seen posix args) (pub_calls posix args))
      by apply consumed_incl.
    split.
    + rewrite Fh. apply (recorded_absent _ _ _ _ Hi Hh).
    + apply (recorded_port_absent _ _ _ _ Hi Hp Fp).
  - apply sub_context_init_ok in H.
    destruct H as ((_ & Fh & Fp & _) & _).
    assert (Hi : incl (sub_seen posix args) (sub_calls posix args))
      by apply consumed_incl.
    split.
    + rewrite Fh. apply (recorded_absent _ _ _ _ Hi Hh).
    + apply (recorded_port_absent _ _ _ _ Hi Hp Fp).
Qed.

Lemma default_host_and_port_witness :
  (exists ctx out,
      Pub.context_init false ["-u"; "me"; "-t"; "test"; "-m"; "hello"]
      = Ok ctx out /\
      Pub.host ctx = Some "localhost" /\ Pub.port ctx = 1883)
  /\
  (exists ctx out,
      Sub.context_init true ["-r"; "-t"; "test"] = Ok ctx out /\
      Sub.host ctx = Some "localhost" /\ Sub.port ctx = 1883).
Proof.
  split.
  - eexists _, _. split; [reflexivity|].
    apply (proj1 (default_host_and_port false
                    ["-u"; "me"; "-t"; "test"; "-m"; "hello"])
             _ _ eq_refl); reflexivity.
  - eexists _, _. split; [reflexivity|].
    apply (proj2 (default_host_and_port true ["-r"; "-t"; "test"])
             _ _ eq_refl); reflexivity.
Defined.

(** ** C10: help requested *)





(** ** The order of the replies

    The steps of the [switch] for replies with distinct return values
    commute, so a run that meets neither the help flag nor an unknown
    flag only depends on which replies the scanner gives, not on their
    order. *)




















(** ** C5: repeated flags and the order of flags *)




(** ** C4: long spellings of value flags *)

(** C4, the code at the failing input.  The long options are all
    declared [no_argument]: for [--topic test] the scanner replies ['t']
    with a null [optarg], which [context_init] hands to [strdup]
    (undefined behaviour); [--topic=test] is refused as an unknown
    option; the short spelling [-t test] records the topic. *)
Theorem long_spelling_takes_no_value (posix : bool) :
  getopt_long posix Pub.optstring Pub.long_opts
    (getopt_start ["--topic"; "test"; "-m"; "hello"])
  = (chr "t", None, getopt_start ["test"; "-m"; "hello"]) /\
  Pub.context_init posix ["--topic"; "test"; "-m"; "hello"] = Undefined /\
  Sub.context_init posix ["--topic"; "test"] = Undefined /\
  Pub.context_init posix ["--topic=test"; "-m"; "hello"]
  = Ok (Pub.set_cmd (Pub.set_exit_code Pub.initial EXIT_FAILURE)
          Pub.COMMAND_SHOW_HELP)
       [stderr ("error: unknown option" +++ LF)] /\
  Pub.context_init posix ["-t"; "test"; "-m"; "hello"]
  = Ok (Pub.set_message (Pub.set_topic Pub.initial (Some "test"))
          (Some "hello")) [].
Proof.
  destruct posix; repeat split; reflexivity.
Qed.

(** ** C2: the keep-alive interval *)

(** C2, the code at the failing input.  Both programs pass
    [MQTT_KEEPALIVE], which is [60 * 1000 = 60000], as the keep-alive
    argument of [mosquitto_connect]; that argument counts seconds. *)
Theorem keepalive_passed_to_connect (posix : bool) :
  filter is_connect
    (events_of (Pub.main posix reachable_broker ["-t"; "test"; "-m"; "hello"]))
  = [mosquitto_connect (Some "localhost") 1883 60000] /\
  filter is_connect
    (events_of (Sub.main posix reachable_broker ["-t"; "test"]))
  = [mosquitto_connect (Some "localhost") 1883 60000] /\
  MQTT_KEEPALIVE <> 60.
Proof.
  destruct posix; repeat split; try reflexivity; discriminate.
Qed.

(** ** C3: how the receive loop ends *)

(** C3, the code at the failing inputs.  The check after the loop tests
    [MOSQ_ERR_SUCCESS == rc].  When [mosquitto_loop] reports a lost
    connection in the first iteration and no signal arrived, the run
    ends with exit code 0; when every call succeeds and a signal ends
    the loop with [errno] at 0, the run ends with exit code 1. *)
Theorem loop_error_leaves_success (posix : bool) :
  (exists out,
      Sub.main posix
        (with_loop_replies reachable_broker 0
           [mk_loop_reply MOSQ_ERR_CONN_LOST [] 0 false])
        ["-t"; "test"]
      = Ok EXIT_SUCCESS out /\
      filter is_loop out = [mosquitto_loop LOOP_INTERVAL 1])
  /\
  (exists out,
      Sub.main posix
        (with_loop_replies reachable_broker 0
           [mk_loop_reply MOSQ_ERR_SUCCESS [] 0 true])
        ["-t"; "test"]
      = Ok EXIT_FAILURE out /\
      filter is_loop out = [mosquitto_loop LOOP_INTERVAL 1]).
Proof.
  destruct posix; split; eexists; split; reflexivity.
Qed.

(** ** C6: one publish call *)

(** C6.  Run with the arguments [-t test -m hello] against a
    collaborator whose calls all succeed, the publisher makes one
    publish call, with topic "test", payload "hello" of length 5, QoS 0
    and retain false, and [main] returns 0. *)
Theorem publish_exactly_once (posix : bool) (w : world) :
  lib_init_rc w = MOSQ_ERR_SUCCESS ->
  new_ok w = true ->
  username_pw_set_rc w = MOSQ_ERR_SUCCESS ->
  connect_rc w = MOSQ_ERR_SUCCESS ->
  publish_rc w = MOSQ_ERR_SUCCESS ->
  exists out,
    Pub.main posix w ["-t"; "test"; "-m"; "hello"] = Ok 0 out /\
    filter is_publish out
    = [mosquitto_publish (Some "test") 5 (Some "hello") 0 false].
Proof.
  intros H1 H2 H3 H4 H5.
  assert (E : Pub.context_init posix ["-t"; "test"; "-m"; "hello"]
              = Ok (Pub.set_message (Pub.set_topic Pub.initial (Some "test"))
                      (Some "hello")) [])
    by (destruct posix; reflexivity).
  unfold Pub.main. rewrite E. simpl.
  unfold Pub.mqtt_pub. rewrite H1, H2, H3, H4, H5. simpl.
  eexists. split; reflexivity.
Qed.

Lemma publish_exactly_once_witness :
  exists out,
    Pub.main false reachable_broker ["-t"; "test"; "-m"; "hello"] = Ok 0 out /\
    filter is_publish out
    = [mosquitto_publish (Some "test") 5 (Some "hello") 0 false].
Proof.
  apply (publish_exactly_once false reachable_broker); reflexivity.
Defined.

(** ** C7: the unsubscribe step *)

Lemma on_message_no_unsubscribe msgs :
  filter is_unsubscribe (flat_map Sub.mqtt_on_message msgs) = [].
Proof.
  induction msgs as [|m tl IH]; simpl; [reflexivity | exact IH].
Qed.

Lemma receive_loop_no_unsubscribe replies : forall rc sd errno x t,
  Sub.receive_loop rc sd errno replies = Ok x t ->
  filter is_unsubscribe t = [].
Proof.
  induction replies as [|r tl IH]; intros rc sd errno x t; simpl;
    destruct ((rc =? MOSQ_ERR_SUCCESS) && negb sd);
    try discriminate;
    try (intros H; inversion H; reflexivity).
  destruct (Sub.receive_loop (loop_rc r) (sd || signalled r) (loop_errno r) tl)
    as [x' t'| |] eqn:R; try discriminate.
  intros H. inversion H; subst. simpl.
  rewrite filter_app, on_message_no_unsubscribe. simpl.
  apply (IH _ _ _ _ _ R).
Qed.

Lemma sub_enters_loop w ctx :
  sub_subscribed w ->
  Sub.mqtt_sub w ctx =
  match Sub.receive_loop (subscribe_rc w) (signalled_early w) (errno_early w)
          (loop_replies w) with
  | Ok (rc, errno) t6 =>
      let '(ctx1, t7) := Sub.after_loop w ctx rc errno in
      let '(ctx2, t8) := Sub.unsubscribe_step w ctx1 in
      Ok ctx2
        (sub_prologue ctx ++ t6 ++ t7 ++ t8)
  | Undefined => Undefined
  | Unfinished => Unfinished
  end.
Proof.
  intros (H1 & H2 & H3 & H4 & H5).
  unfold Sub.mqtt_sub.
  rewrite H1, H2, H3, H4, H5.
  reflexivity.
Qed.

(** C7.  When [mqtt_sub] has subscribed and its receive loop has come
    to an end, the run holds one unsubscribe call, placed after every
    call of the loop; the context it returns, the exit code with it, is
    the one the check after the loop left; and it is the same whatever
    the unsubscribe call returns. *)
Theorem unsubscribe_once_and_harmless
    (w : world) (ctx ctx' : Sub.context) (out : list event) :
  sub_subscribed w ->
  Sub.mqtt_sub w ctx = Ok ctx' out ->
  (exists before after,
      out = before ++ mosquitto_unsubscribe (Sub.topic ctx) :: after /\
      filter is_unsubscribe before = [] /\
      filter is_unsubscribe after = [] /\
      filter is_loop after = [])
  /\
  (exists rc errno t,
      Sub.receive_loop (subscribe_rc w) (signalled_early w) (errno_early w)
        (loop_replies w) = Ok (rc, errno) t /\
      ctx' = fst (Sub.after_loop w ctx rc errno) /\
      Sub.exit_code ctx' = Sub.exit_code (fst (Sub.after_loop w ctx rc errno)))
  /\
  (forall rc',
      exists out', Sub.mqtt_sub (with_unsubscribe_rc w rc') ctx = Ok ctx' out').
Proof.
  intros S H. rewrite (sub_enters_loop w ctx S) in H.
  destruct (Sub.receive_loop (subscribe_rc w) (signalled_early w)
              (errno_early w) (loop_replies w)) as [[rc errno] t6| |] eqn:R;
    try discriminate.
  pose proof (receive_loop_no_unsubscribe _ _ _ _ _ _ R) as Ht6.
  assert (Ha : filter is_unsubscribe (snd (Sub.after_loop w ctx rc errno)) = []).
  { unfold Sub.after_loop.
    destruct ((MOSQ_ERR_SUCCESS =? rc) && negb (errno =? EINTR)); reflexivity. }
  assert (Ht : Sub.topic (fst (Sub.after_loop w ctx rc errno)) = Sub.topic ctx).
  { unfold Sub.after_loop.
    destruct ((MOSQ_ERR_SUCCESS =? rc) && negb (errno =? EINTR)); reflexivity. }
  split; [|split].
  - destruct (Sub.after_loop w ctx rc errno) as [ctx1 t7].
    cbn [fst snd] in Ha, Ht. unfold Sub.unsubscribe_step in H.
    inversion H; subst ctx' out. clear H.
    exists (sub_prologue ctx ++ t6 ++ t7).
    exists ((if Sub.failed (unsubscribe_rc w)
             then [stderr ("warning: failed to unsubscribe" +++ LF)] else [])
            ++ [mosquitto_destroy; mosquitto_lib_cleanup]).
    split.
    + rewrite Ht.
      rewrite <- (app_assoc (sub_prologue ctx) (t6 ++ t7)).
      rewrite <- (app_assoc t6 t7). reflexivity.
    + rewrite (filter_app _ (sub_prologue ctx)), (filter_app _ t6), Ht6, Ha.
      destruct (Sub.failed (unsubscribe_rc w)); repeat split; reflexivity.
  - exists rc, errno, t6.
    destruct (Sub.after_loop w ctx rc errno) as [ctx1 t7].
    unfold Sub.unsubscribe_step in H. inversion H; subst ctx' out.
    repeat split; reflexivity.
  - intros rc'.
    assert (S' : sub_subscribed (with_unsubscribe_rc w rc')) by exact S.
    rewrite (sub_enters_loop _ ctx S').
    change (Sub.receive_loop (subscribe_rc (with_unsubscribe_rc w rc'))
              (signalled_early (with_unsubscribe_rc w rc'))
              (errno_early (with_unsubscribe_rc w rc'))
              (loop_replies (with_unsubscribe_rc w rc')))
      with (Sub.receive_loop (subscribe_rc w) (signalled_early w)
              (errno_early w) (loop_replies w)).
    rewrite R.
    change (Sub.after_loop (with_unsubscribe_rc w rc') ctx rc errno)
      with (Sub.after_loop w ctx rc errno).
    destruct (Sub.after_loop w ctx rc errno) as [ctx1 t7].
    unfold Sub.unsubscribe_step in *. inversion H; subst ctx' out.
    eexists. reflexivity.
Qed.

Lemma unsubscribe_once_and_harmless_witness :
  exists ctx out,
    Sub.mqtt_sub reachable_broker
      (Sub.set_topic Sub.initial (Some "test")) = Ok ctx out /\
    Sub.exit_code ctx = EXIT_SUCCESS /\
    forall rc',
    exists out',
      Sub.mqtt_sub (with_unsubscribe_rc reachable_broker rc')
        (Sub.set_topic Sub.initial (Some "test")) = Ok ctx out'.
Proof.
  eexists _, _. split; [reflexivity|]. split; [reflexivity|].
  apply (proj2 (proj2
           (unsubscribe_once_and_harmless reachable_broker
              (Sub.set_topic Sub.initial (Some "test")) _ _
              (conj eq_refl (conj eq_refl (conj eq_refl
                 (conj eq_refl eq_refl))))
              eq_refl))).
Defined.

(** ** C8: the message handler *)

Lemma c_str_without_nul (s : string) : has_nul s = false -> c_str s = s.
Proof.
  induction s as [|a r IH]; simpl; [reflexivity|].
  intros H. apply orb_false_iff in H. destruct H as [Ha Hr].
  rewrite Ha, (IH Hr). reflexivity.
Qed.

Lemma append_assoc (a b c : string) : (a +++ b) +++ c = a +++ b +++ c.
Proof.
  induction a as [|x a IH]; simpl; [reflexivity|]. rewrite IH. reflexivity.
Qed.

(** C8, as amended.  For every message, [mqtt_on_message] writes one
    block to standard output: the message identifier, the topic, the
    retained flag as yes or no, the payload and an empty line.  A
    payload length of zero (or below) is rendered as "<empty>"; a
    positive length [n] as the first [n] bytes of the payload cut at
    their first NUL byte, which is all of them when none is NUL. *)
Theorem on_message_block (m : mosquitto_message) :
  stdout_text (Sub.mqtt_on_message m)
  = "message id: " +++ fmt_d (mid m) +++ LF
    +++ "topic     : " +++ fmt_s (msg_topic m) +++ LF
    +++ "retained  : " +++ (if msg_retain m then "yes" else "no") +++ LF
    +++ "payload   : " +++ Sub.payload_text m +++ LF
    +++ LF
  /\
  (payloadlen m <= 0 -> Sub.payload_text m = "<empty>")
  /\
  (0 < payloadlen m ->
   Sub.payload_text m
   = c_str (string_firstn (Z.to_nat (payloadlen m)) (payload m)))
  /\
  (0 < payloadlen m ->
   has_nul (string_firstn (Z.to_nat (payloadlen m)) (payload m)) = false ->
   Sub.payload_text m = string_firstn (Z.to_nat (payloadlen m)) (payload m)).
Proof.
  split; [|split; [|split]].
  - unfold Sub.mqtt_on_message, stdout_text. simpl fold_right.
    rewrite !append_assoc.
    replace (LF +++ "") with LF by reflexivity. reflexivity.
  - intros H. unfold Sub.payload_text.
    destruct (Z.ltb_spec 0 (payloadlen m)); [lia | reflexivity].
  - intros H. unfold Sub.payload_text, fmt_s_prec.
    destruct (Z.ltb_spec 0 (payloadlen m)); [reflexivity | lia].
  - intros H N. unfold Sub.payload_text, fmt_s_prec.
    destruct (Z.ltb_spec 0 (payloadlen m)); [|lia].
    apply c_str_without_nul. exact N.
Qed.

Lemma on_message_block_witness :
  Sub.payload_text (mk_message 7 "test" "" 0 false) = "<empty>" /\
  Sub.payload_text (mk_message 8 "test" "hello" 5 true) = "hello".
Proof.
  split.
  - apply (proj1 (proj2 (on_message_block (mk_message 7 "test" "" 0 false)))).
    simpl. lia.
  - apply (proj2 (proj2 (proj2
             (on_message_block (mk_message 8 "test" "hello" 5 true))))).
    + simpl. lia.
    + reflexivity.
Defined.

(** C8 as stated fails: of the three payload bytes [a], NUL, [b] the
    handler prints the first only. *)
Lemma payload_cut_at_nul :
  ~ (forall m,
        0 < payloadlen m ->
        payloadlen m = Z.of_nat (String.length (payload m)) ->
        Sub.payload_text m
        = string_firstn (Z.to_nat (payloadlen m)) (payload m)).
Proof.
  intros H.
  specialize (H (mk_message 1 "test"
                   (String "a" (String NUL (String "b" EmptyString))) 3 false)
                eq_refl eq_refl).
  discriminate H.
Qed.

(* ================================================================= *)
(** * Further properties *)

(** ** The session runner of the publisher *)

Lemma mqtt_pub_result
    (w : world) (ctx ctx' : Pub.context) (out : list event) :
  Pub.mqtt_pub w ctx = Ok ctx' out ->
  ctx' = (if published w then ctx else Pub.set_exit_code ctx EXIT_FAILURE) /\
  count is_stderr out = one_if (negb (published w)) /\
  count is_stdout out = 0%nat.
Proof.
  unfold Pub.mqtt_pub, published, connected, login_ready, handle_ready,
    lib_ready.
  destruct (Pub.failed (lib_init_rc w)); cbn [negb andb];
    [intros H; inversion H; subst; repeat split|].
  destruct (new_ok w); cbn [negb andb];
    [|intros H; inversion H; subst; repeat split].
  destruct (Pub.failed (username_pw_set_rc w)); cbn [negb andb];
    [intros H; inversion H; subst; repeat split|].
  destruct (Pub.failed (connect_rc w)); cbn [negb andb];
    [intros H; inversion H; subst; repeat split|].
  destruct (Pub.message ctx); [|discriminate].
  destruct (Pub.failed (publish_rc w)); cbn [negb andb];
    intros H; inversion H; subst; repeat split.
Qed.

(** X14.  [mqtt_pub] changes nothing of the context but the exit code.
    When all five calls of the collaborator succeed it returns the
    context it was given and writes nothing; when one fails it returns
    that context with the exit code [EXIT_FAILURE] and writes one line
    to the error stream.  It never writes to standard output. *)
Theorem mqtt_pub_exit_status
    (w : world) (ctx ctx' : Pub.context) (out : list event) :
  Pub.mqtt_pub w ctx = Ok ctx' out ->
  ctx' = (if published w then ctx else Pub.set_exit_code ctx EXIT_FAILURE) /\
  count is_stderr out = one_if (negb (published w)) /\
  count is_stdout out = 0%nat.
Proof.
  intros; eapply mqtt_pub_result; eassumption.
Qed.

Ltac pub_paths :=
  unfold Pub.mqtt_pub, published, connected, login_ready, handle_ready,
    lib_ready;
  match goal with
  | |- context [Pub.failed (lib_init_rc ?w)] =>
      destruct (Pub.failed (lib_init_rc w)); cbn [negb andb];
      [|destruct (new_ok w); cbn [negb andb];
        [destruct (Pub.failed (username_pw_set_rc w)); cbn [negb andb];
         [|destruct (Pub.failed (connect_rc w)); cbn [negb andb];
           [|match goal with
             | |- context [Pub.message ?ctx] =>
                 destruct (Pub.message ctx); [|discriminate];
                 destruct (Pub.failed (publish_rc w)); cbn [negb andb]
             end]]|]]
  end;
  let H := fresh "H" in intros H; inversion H; subst; clear H.

(** X15.  [mqtt_pub] releases what it acquired, on every path.  The
    library is initialised once; it is cleaned up once when its
    initialisation succeeded, as the last event of the run, and not
    otherwise; the client handle is created at most once and destroyed
    once when it was created, right before the cleanup. *)
Theorem mqtt_pub_releases
    (w : world) (ctx ctx' : Pub.context) (out : list event) :
  Pub.mqtt_pub w ctx = Ok ctx' out ->
  count is_lib_init out = 1%nat /\
  count is_lib_cleanup out = one_if (lib_ready w) /\
  count is_new out = one_if (lib_ready w) /\
  count is_destroy out = one_if (handle_ready w) /\
  (lib_ready w = true ->
   exists before, out = before ++ [mosquitto_lib_cleanup]) /\
  (handle_ready w = true ->
   exists before, out = before ++ [mosquitto_destroy; mosquitto_lib_cleanup]).
Proof.
  pub_paths; repeat split; try discriminate; intros _;
    try (eexists [_]; reflexivity);
    try (eexists [_; _]; reflexivity);
    try (eexists [_; _; _]; reflexivity);
    try (eexists [_; _; _; _]; reflexivity);
    try (eexists [_; _; _; _; _]; reflexivity);
    try (eexists [_; _; _; _; _; _]; reflexivity);
    try (eexists [_; _; _; _; _; _; _]; reflexivity).
Qed.

(** X16.  The calls of [mqtt_pub] stop at the first that fails: the
    credentials are set only when the handle was created, the connection
    is attempted only when the credentials were set, and the publish
    call is made, once, only when the connection succeeded. *)
Theorem mqtt_pub_stops_at_failure
    (w : world) (ctx ctx' : Pub.context) (out : list event) :
  Pub.mqtt_pub w ctx = Ok ctx' out ->
  count is_username_pw_set out = one_if (handle_ready w) /\
  count is_connect out = one_if (login_ready w) /\
  count is_publish out = one_if (connected w).
Proof.
  pub_paths; repeat split.
Qed.

(** ** The receive loop of the subscriber *)

Lemma count_app p (a b : list event) :
  count p (a ++ b) = (count p a + count p b)%nat.
Proof. unfold count. rewrite filter_app, length_app. reflexivity. Qed.

Lemma not_failed rc : Pub.failed rc = false -> rc = MOSQ_ERR_SUCCESS.
Proof.
  unfold Pub.failed. intros H. apply negb_false_iff in H.
  apply Z.eqb_eq in H. symmetry. exact H.
Qed.

Lemma on_message_stdout msgs :
  filter is_stdout (flat_map Sub.mqtt_on_message msgs)
  = flat_map Sub.mqtt_on_message msgs.
Proof.
  induction msgs as [|m tl IH]; [reflexivity|].
  cbn [flat_map]. rewrite filter_app, IH. reflexivity.
Qed.

Lemma on_message_no_loop msgs :
  filter is_loop (flat_map Sub.mqtt_on_message msgs) = [].
Proof.
  induction msgs as [|m tl IH]; [reflexivity|].
  cbn [flat_map]. rewrite filter_app, IH. reflexivity.
Qed.

Lemma blocks_cons r tl :
  blocks (r :: tl) = flat_map Sub.mqtt_on_message (delivered r) ++ blocks tl.
Proof. unfold blocks. cbn [flat_map]. apply flat_map_app. Qed.

(** With the shutdown flag set, or after an error, no call is made. *)
Lemma receive_loop_idle rc sd errno replies :
  (rc =? MOSQ_ERR_SUCCESS) && negb sd = false ->
  Sub.receive_loop rc sd errno replies = Ok (rc, errno) [].
Proof.
  intros H. destruct replies; simpl; rewrite H; reflexivity.
Qed.

Lemma receive_loop_step errno r tl :
  Sub.receive_loop MOSQ_ERR_SUCCESS false errno (r :: tl) =
  match Sub.receive_loop (loop_rc r) (signalled r) (loop_errno r) tl with
  | Ok x out =>
      Ok x (mosquitto_loop LOOP_INTERVAL 1
            :: flat_map Sub.mqtt_on_message (delivered r) ++ out)
  | Undefined => Undefined
  | Unfinished => Unfinished
  end.
Proof. reflexivity. Qed.

Lemma receive_loop_goes_on errno r tl :
  loop_goes_on r = true ->
  Sub.receive_loop (loop_rc r) (signalled r) errno tl
  = Sub.receive_loop MOSQ_ERR_SUCCESS false errno tl.
Proof.
  unfold loop_goes_on. intros H. apply andb_true_iff in H.
  destruct H as [H1 H2]. apply Z.eqb_eq in H1. apply negb_true_iff in H2.
  rewrite H1, H2. reflexivity.
Qed.

Lemma receive_loop_first_stop
    (replies : list loop_reply) (errno0 rc errno : Z) (out : list event) :
  Sub.receive_loop MOSQ_ERR_SUCCESS false errno0 replies = Ok (rc, errno) out ->
  exists pre r post,
    replies = pre ++ r :: post /\
    forallb loop_goes_on pre = true /\
    loop_goes_on r = false /\
    rc = loop_rc r /\ errno = loop_errno r /\
    filter is_loop out
    = repeat (mosquitto_loop LOOP_INTERVAL 1) (S (List.length pre)) /\
    filter is_stdout out = blocks (pre ++ [r]) /\
    List.length out
    = (List.length (filter is_loop out) + List.length (filter is_stdout out))%nat.
Proof.
  revert errno0 rc errno out.
  induction replies as [|r tl IH]; intros errno0 rc errno out H;
    [discriminate H|].
  rewrite receive_loop_step in H.
  destruct (loop_goes_on r) eqn:G.
  - rewrite (receive_loop_goes_on _ _ _ G) in H.
    destruct (Sub.receive_loop MOSQ_ERR_SUCCESS false (loop_errno r) tl)
      as [[rc' errno'] t| |] eqn:R; try discriminate H.
    inversion H; subst rc' errno' out. clear H.
    destruct (IH _ _ _ _ R) as (pre & r' & post & E & Hp & Hr & Hrc & He & Hl & Hs & Hn).
    exists (r :: pre), r', post. subst tl.
    repeat split; try assumption.
    + cbn [forallb]. rewrite G, Hp. reflexivity.
    + cbn [filter is_loop]. rewrite filter_app, on_message_no_loop, Hl.
      reflexivity.
    + cbn [filter is_stdout]. rewrite filter_app, on_message_stdout, Hs.
      change ((r :: pre) ++ [r']) with (r :: (pre ++ [r'])).
      rewrite blocks_cons. reflexivity.
    + cbn [filter is_loop is_stdout List.length].
      rewrite !filter_app, on_message_no_loop, on_message_stdout.
      rewrite !length_app, Hn. cbn [app List.length]. lia.
  - rewrite (receive_loop_idle _ _ _ _ G) in H.
    inversion H; subst rc errno out. clear H.
    exists [], r, tl. repeat split; try assumption.
    + cbn [filter is_loop]. rewrite filter_app, on_message_no_loop. reflexivity.
    + cbn [filter is_stdout]. rewrite filter_app, on_message_stdout.
      unfold blocks. cbn [flat_map app]. rewrite !app_nil_r. reflexivity.
    + cbn [filter is_loop is_stdout List.length].
      rewrite !filter_app, on_message_no_loop, on_message_stdout.
      rewrite !length_app. cbn [app List.length filter]. lia.
Qed.

(** X17.  The receive loop of the subscriber runs up to the first reply
    of [mosquitto_loop] that is an error or during which a signal
    arrived.  When the loop returns, the replies split into those before
    that reply, all successful and without a signal, that reply, and the
    rest; the loop made one call per reply up to and including it, each
    with timeout 1000 and one packet, printed the blocks of the messages
    delivered in them, in order, and nothing else; its result is the
    return value and [errno] of that reply. *)
Theorem receive_loop_stops_at_first
    (replies : list loop_reply) (errno0 rc errno : Z) (out : list event) :
  Sub.receive_loop MOSQ_ERR_SUCCESS false errno0 replies = Ok (rc, errno) out ->
  exists pre r post,
    replies = pre ++ r :: post /\
    forallb loop_goes_on pre = true /\
    loop_goes_on r = false /\
    rc = loop_rc r /\ errno = loop_errno r /\
    filter is_loop out
    = repeat (mosquitto_loop LOOP_INTERVAL 1) (S (List.length pre)) /\
    filter is_stdout out = blocks (pre ++ [r]) /\
    List.length out
    = (List.length (filter is_loop out) + List.length (filter is_stdout out))%nat.
Proof.
  intros; eapply receive_loop_first_stop; eassumption.
Qed.

(** X18.  The receive loop returns as soon as a reply stops it: when
    some reply of [mosquitto_loop] is an error or comes with a signal,
    and all before it are successful and without a signal, the loop
    returns with the return value and [errno] of that reply, whatever
    replies would follow. *)
Theorem receive_loop_returns
    (pre : list loop_reply) (r : loop_reply) (post : list loop_reply)
    (errno0 : Z) :
  forallb loop_goes_on pre = true ->
  loop_goes_on r = false ->
  exists out,
    Sub.receive_loop MOSQ_ERR_SUCCESS false errno0 (pre ++ r :: post)
    = Ok (loop_rc r, loop_errno r) out.
Proof.
  revert errno0.
  induction pre as [|p pre IH]; intros errno0 Hp Hr.
  - cbn [app]. rewrite receive_loop_step, (receive_loop_idle _ _ _ _ Hr).
    eexists. reflexivity.
  - cbn [forallb] in Hp. apply andb_true_iff in Hp. destruct Hp as [G Hp].
    cbn [app]. rewrite receive_loop_step, (receive_loop_goes_on _ _ _ G).
    destruct (IH (loop_errno p) Hp Hr) as [out E]. rewrite E.
    eexists. reflexivity.
Qed.

(** ** The session runner of the subscriber *)

Lemma receive_loop_events replies : forall rc sd errno x t,
  Sub.receive_loop rc sd errno replies = Ok x t ->
  Forall (fun e => is_loop e || is_stdout e = true) t.
Proof.
  induction replies as [|r tl IH]; intros rc sd errno x t; simpl;
    destruct ((rc =? MOSQ_ERR_SUCCESS) && negb sd);
    try discriminate;
    try (intros H; inversion H; constructor).
  destruct (Sub.receive_loop (loop_rc r) (sd || signalled r) (loop_errno r) tl)
    as [x' t'| |] eqn:R; try discriminate.
  intros H. inversion H; subst. constructor; [reflexivity|].
  apply Forall_app. split; [|apply (IH _ _ _ _ _ R)].
  clear. induction (delivered r) as [|m ms IHm]; [constructor|].
  cbn [flat_map]. apply Forall_app. split; [|exact IHm].
  repeat constructor.
Qed.

Lemma count_none p (t : list event) :
  Forall (fun e => is_loop e || is_stdout e = true) t ->
  (forall e, is_loop e || is_stdout e = true -> p e = false) ->
  count p t = 0%nat.
Proof.
  intros F Hp. unfold count.
  induction F as [|e t He F IH]; [reflexivity|].
  cbn [filter]. rewrite (Hp e He). exact IH.
Qed.

Ltac other_kind :=
  let e := fresh "e" in
  intros e; destruct e; simpl; intros; try reflexivity; discriminate.

Lemma app_tail (a b c d e : list event) :
  a ++ b ++ c ++ d ++ e = (a ++ b ++ c ++ d) ++ e.
Proof. rewrite <- !app_assoc. reflexivity. Qed.

Lemma subscribed_sub_subscribed w : subscribed w = true -> sub_subscribed w.
Proof.
  unfold subscribed, connected, login_ready, handle_ready, lib_ready.
  intros H. repeat (apply andb_true_iff in H; destruct H as [H ?]).
  repeat match goal with
         | H : negb _ = true |- _ => apply negb_true_iff in H
         end.
  repeat split; try assumption; apply not_failed; assumption.
Qed.

Lemma mqtt_sub_not_subscribed (w : world) (ctx : Sub.context) :
  subscribed w = false ->
  exists out,
    Sub.mqtt_sub w ctx = Ok (Sub.set_exit_code ctx EXIT_FAILURE) out /\
    count is_stderr out = 1%nat /\
    count is_subscribe out = one_if (connected w) /\
    count is_loop out = 0%nat /\
    count is_unsubscribe out = 0%nat /\
    count is_stdout out = 0%nat.
Proof.
  unfold Sub.mqtt_sub, subscribed, connected, login_ready, handle_ready,
    lib_ready. change Sub.failed with Pub.failed.
  destruct (Pub.failed (lib_init_rc w)); cbn [negb andb];
    [intros _; eexists; repeat split|].
  destruct (new_ok w); cbn [negb andb];
    [|intros _; eexists; repeat split].
  destruct (Pub.failed (username_pw_set_rc w)); cbn [negb andb];
    [intros _; eexists; repeat split|].
  destruct (Pub.failed (connect_rc w)); cbn [negb andb];
    [intros _; eexists; repeat split|].
  destruct (Pub.failed (subscribe_rc w)); cbn [negb andb];
    [intros _; eexists; repeat split|discriminate].
Qed.

(** X19.  A failure before the receive loop ends [mqtt_sub].  When
    library init, the creation of the handle, the credentials, the
    connection or the subscription fails, [mqtt_sub] returns the context
    with the exit code [EXIT_FAILURE], writes one line to the error
    stream, never calls [mosquitto_loop] or [mosquitto_unsubscribe], and
    prints nothing. *)
Theorem mqtt_sub_setup_failure (w : world) (ctx : Sub.context) :
  subscribed w = false ->
  exists out,
    Sub.mqtt_sub w ctx = Ok (Sub.set_exit_code ctx EXIT_FAILURE) out /\
    count is_stderr out = 1%nat /\
    count is_subscribe out = one_if (connected w) /\
    count is_loop out = 0%nat /\
    count is_unsubscribe out = 0%nat /\
    count is_stdout out = 0%nat.
Proof.
  intros; eapply mqtt_sub_not_subscribed; eassumption.
Qed.

Lemma mqtt_sub_run w ctx ctx' out :
  subscribed w = true ->
  Sub.mqtt_sub w ctx = Ok ctx' out ->
  exists rc errno t6,
    Sub.receive_loop MOSQ_ERR_SUCCESS (signalled_early w) (errno_early w)
      (loop_replies w) = Ok (rc, errno) t6 /\
    ctx' = fst (Sub.after_loop w ctx rc errno) /\
    out = sub_prologue ctx ++ t6 ++ snd (Sub.after_loop w ctx rc errno)
          ++ [mosquitto_unsubscribe (Sub.topic ctx)]
          ++ (if Pub.failed (unsubscribe_rc w)
              then [stderr ("warning: failed to unsubscribe" +++ LF)] else [])
          ++ [mosquitto_destroy; mosquitto_lib_cleanup].
Proof.
  intros S H. apply subscribed_sub_subscribed in S.
  rewrite (sub_enters_loop w ctx S) in H.
  destruct S as (_ & _ & _ & _ & S5). rewrite S5 in H.
  destruct (Sub.receive_loop MOSQ_ERR_SUCCESS (signalled_early w)
              (errno_early w) (loop_replies w)) as [[rc errno] t6| |];
    try discriminate H.
  exists rc, errno, t6. split; [reflexivity|].
  unfold Sub.after_loop in *.
  destruct ((MOSQ_ERR_SUCCESS =? rc) && negb (errno =? EINTR));
    unfold Sub.unsubscribe_step in H; inversion H; subst; split; reflexivity.
Qed.

Lemma after_loop_events w ctx rc errno :
  snd (Sub.after_loop w ctx rc errno) = [] \/
  exists text, snd (Sub.after_loop w ctx rc errno) = [stderr text].
Proof.
  unfold Sub.after_loop.
  destruct ((MOSQ_ERR_SUCCESS =? rc) && negb (errno =? EINTR));
    [right; eexists; reflexivity | left; reflexivity].
Qed.

Ltac sub_setup_paths :=
  unfold Sub.mqtt_sub, subscribed, connected, login_ready, handle_ready,
    lib_ready in *;
  change Sub.failed with Pub.failed in *;
  match goal with
  | S : context [Pub.failed (lib_init_rc ?w)] |- _ =>
      destruct (Pub.failed (lib_init_rc w)); cbn [negb andb] in *;
      [|destruct (new_ok w); cbn [negb andb] in *;
        [destruct (Pub.failed (username_pw_set_rc w)); cbn [negb andb] in *;
         [|destruct (Pub.failed (connect_rc w)); cbn [negb andb] in *;
           [|destruct (Pub.failed (subscribe_rc w)); cbn [negb andb] in *;
             [|discriminate S]]]|]]
  end;
  let H := fresh "H" in intros H; inversion H; subst; clear H.

Lemma subscribed_ready w :
  subscribed w = true ->
  lib_ready w = true /\ handle_ready w = true /\
  login_ready w = true /\ connected w = true.
Proof.
  unfold subscribed. intros S. apply andb_true_iff in S. destruct S as [C _].
  pose proof C as C'. unfold connected in C'.
  apply andb_true_iff in C'. destruct C' as [L _].
  pose proof L as L'. unfold login_ready in L'.
  apply andb_true_iff in L'. destruct L' as [N _].
  pose proof N as N'. unfold handle_ready in N'.
  apply andb_true_iff in N'. destruct N' as [I _].
  repeat split; assumption.
Qed.

Lemma ends_with_two (a b c d e : list event) (x y : event) :
  a ++ b ++ c ++ d ++ e ++ [x; y] = (a ++ b ++ c ++ d ++ e) ++ [x; y] /\
  a ++ b ++ c ++ d ++ e ++ [x; y] = (a ++ b ++ c ++ d ++ e ++ [x]) ++ [y].
Proof.
  split.
  - rewrite <- (app_assoc a), <- (app_assoc b), <- (app_assoc c),
      <- (app_assoc d). reflexivity.
  - rewrite <- (app_assoc a), <- (app_assoc b), <- (app_assoc c),
      <- (app_assoc d), <- (app_assoc e). reflexivity.
Qed.

(** X20.  [mqtt_sub] releases what it acquired, on every path on which
    it returns: the library is cleaned up once when its initialisation
    succeeded, as the last event, and the handle is destroyed once when
    it was created, right before the cleanup. *)
Theorem mqtt_sub_releases
    (w : world) (ctx ctx' : Sub.context) (out : list event) :
  Sub.mqtt_sub w ctx = Ok ctx' out ->
  count is_lib_init out = 1%nat /\
  count is_lib_cleanup out = one_if (lib_ready w) /\
  count is_new out = one_if (lib_ready w) /\
  count is_destroy out = one_if (handle_ready w) /\
  (lib_ready w = true ->
   exists before, out = before ++ [mosquitto_lib_cleanup]) /\
  (handle_ready w = true ->
   exists before, out = before ++ [mosquitto_destroy; mosquitto_lib_cleanup]).
Proof.
  intros H. destruct (subscribed w) eqn:S.
  - destruct (mqtt_sub_run _ _ _ _ S H) as (rc & errno & t6 & R & _ & E).
    pose proof (receive_loop_events _ _ _ _ _ _ R) as F.
    destruct (subscribed_ready w S) as (L1 & L2 & _ & _).
    rewrite L1, L2. subst out.
    split; [|split; [|split; [|split; [|split]]]].
    1-4: rewrite !count_app;
      rewrite (count_none _ t6 F) by other_kind;
      destruct (after_loop_events w ctx rc errno) as [A|[text A]]; rewrite A;
      destruct (Pub.failed (unsubscribe_rc w)); reflexivity.
    + intros _. eexists. apply ends_with_two.
    + intros _. eexists. apply ends_with_two.
  - revert H. sub_setup_paths.
    all: repeat split; try discriminate; intros _;
      try (eexists [_]; reflexivity);
      try (eexists [_; _]; reflexivity);
      try (eexists [_; _; _]; reflexivity);
      try (eexists [_; _; _; _]; reflexivity);
      try (eexists [_; _; _; _; _]; reflexivity);
      try (eexists [_; _; _; _; _; _]; reflexivity);
      try (eexists [_; _; _; _; _; _; _]; reflexivity);
      try (eexists [_; _; _; _; _; _; _; _]; reflexivity);
      try (eexists [_; _; _; _; _; _; _; _; _]; reflexivity);
      try (eexists [_; _; _; _; _; _; _; _; _; _]; reflexivity).
Qed.

(** X21.  What a subscribed run prints, and how often it polls.  When
    the subscription succeeded, no signal arrived before the loop and
    [mqtt_sub] returns, the text on standard output is the blocks of the
    messages delivered up to and including the first reply that stopped
    the loop, in order; messages of later replies are not printed;
    [mosquitto_loop] was called once per reply up to that one. *)
Theorem mqtt_sub_prints_delivered
    (w : world) (ctx ctx' : Sub.context) (out : list event) :
  subscribed w = true ->
  signalled_early w = false ->
  Sub.mqtt_sub w ctx = Ok ctx' out ->
  exists pre r post,
    loop_replies w = pre ++ r :: post /\
    forallb loop_goes_on pre = true /\
    loop_goes_on r = false /\
    filter is_stdout out = blocks (pre ++ [r]) /\
    count is_loop out = S (List.length pre).
Proof.
  intros S E0 H.
  destruct (mqtt_sub_run _ _ _ _ S H) as (rc & errno & t6 & R & _ & E).
  rewrite E0 in R.
  destruct (receive_loop_first_stop _ _ _ _ _ R)
    as (pre & r & post & El & Hp & Hr & _ & _ & Hl & Hs & _).
  exists pre, r, post. repeat split; try assumption.
  - subst out. rewrite !filter_app, Hs.
    destruct (after_loop_events w ctx rc errno) as [A|[text A]]; rewrite A;
      destruct (Pub.failed (unsubscribe_rc w)); cbn [filter is_stdout app];
      rewrite ?app_nil_r; reflexivity.
  - subst out. rewrite !count_app. unfold count at 2. rewrite Hl, repeat_length.
    destruct (after_loop_events w ctx rc errno) as [A|[text A]]; rewrite A;
      destruct (Pub.failed (unsubscribe_rc w)); cbn; lia.
Qed.


(** X23.  The order of the calls of [mqtt_sub] up to the connection.
    Whenever the credentials were set and [mqtt_sub] returns, its run
    starts with the handlers for SIGINT and SIGTERM, library init, the
    new client with a clean session, the credentials, the message
    callback and then the connection, with the host and port of the
    context; no other connection, callback registration or client
    creation follows. *)
Theorem mqtt_sub_setup_order
    (w : world) (ctx ctx' : Sub.context) (out : list event) :
  login_ready w = true ->
  Sub.mqtt_sub w ctx = Ok ctx' out ->
  exists after,
    out = [signal SIGINT; signal SIGTERM; mosquitto_lib_init;
           mosquitto_new (Sub.id ctx) true;
           mosquitto_username_pw_set (Sub.user ctx) (Sub.password ctx);
           mosquitto_message_callback_set;
           mosquitto_connect (Sub.host ctx) (Sub.port ctx) MQTT_KEEPALIVE]
          ++ after /\
    count is_connect after = 0%nat /\
    count is_callback_set after = 0%nat /\
    count is_new after = 0%nat.
Proof.
  intros L H. destruct (subscribed w) eqn:S.
  - destruct (mqtt_sub_run _ _ _ _ S H) as (rc & errno & t6 & R & _ & E).
    pose proof (receive_loop_events _ _ _ _ _ _ R) as F.
    eexists. split; [subst out; unfold sub_prologue; reflexivity|].
    cbn [app].
    change (mosquitto_subscribe (Sub.topic ctx) MQTT_QOS :: ?x)
      with ([mosquitto_subscribe (Sub.topic ctx) MQTT_QOS] ++ x).
    rewrite !count_app.
    rewrite !(count_none _ t6 F) by other_kind.
    destruct (after_loop_events w ctx rc errno) as [A|[text A]]; rewrite A;
      destruct (Pub.failed (unsubscribe_rc w)); repeat split.
  - revert H. unfold Sub.mqtt_sub, subscribed, connected, login_ready,
      handle_ready, lib_ready in *.
    change Sub.failed with Pub.failed in *.
    destruct (Pub.failed (lib_init_rc w)); [discriminate L|].
    destruct (new_ok w); [|discriminate L].
    destruct (Pub.failed (username_pw_set_rc w)); [discriminate L|].
    cbn [negb andb] in *.
    destruct (Pub.failed (connect_rc w)); cbn [negb andb] in *;
      [|destruct (Pub.failed (subscribe_rc w)); [|discriminate S]];
      intros H; inversion H; subst; eexists; repeat split.
Qed.

(** ** The option loop on command lines *)

Lemma pub_options_fuel posix f ctx args :
  (weight (getopt_start args) < f)%nat ->
  option_loop posix Pub.optstring Pub.long_opts Pub.option_case f ctx
    (getopt_start args) = pub_options posix ctx args.
Proof.
  intros H. unfold pub_options.
  apply option_loop_fuel; [reflexivity | exact H | unfold enough_fuel; lia].
Qed.

Lemma sub_options_fuel posix f ctx args :
  (weight (getopt_start args) < f)%nat ->
  option_loop posix Sub.optstring Sub.long_opts Sub.option_case f ctx
    (getopt_start args) = sub_options posix ctx args.
Proof.
  intros H. unfold sub_options.
  apply option_loop_fuel; [reflexivity | exact H | unfold enough_fuel; lia].
Qed.

Lemma start_weight_cons x args :
  weight (getopt_start (x :: args))
  = S (String.length x + weight (getopt_start args)).
Proof. reflexivity. Qed.

Lemma start_weight_app a b :
  (weight (getopt_start b) <= weight (getopt_start (a ++ b)))%nat.
Proof.
  induction a as [|x a IH]; [apply Nat.le_refl|].
  cbn [app]. rewrite start_weight_cons. lia.
Qed.

Lemma pub_context_init_options posix args :
  Pub.context_init posix args =
  match pub_options posix Pub.initial args with
  | Ok ctx out =>
      let '(ctx', out') := Pub.check_required ctx out in Ok ctx' out'
  | Undefined => Undefined
  | Unfinished => Unfinished
  end.
Proof. reflexivity. Qed.

Lemma sub_context_init_options posix args :
  Sub.context_init posix args =
  match sub_options posix Sub.initial args with
  | Ok ctx out =>
      let '(ctx', out') := Sub.check_required ctx out in Ok ctx' out'
  | Undefined => Undefined
  | Unfinished => Unfinished
  end.
Proof. reflexivity. Qed.

Lemma pub_options_setting posix s ctx args :
  pub_options posix ctx (spell s ++ args)
  = pub_options posix (pub_apply ctx s) args.
Proof.
  rewrite <- (pub_options_fuel posix
                (weight (getopt_start (spell s ++ args))) (pub_apply ctx s) args).
  - unfold pub_options, enough_fuel. destruct s, posix; reflexivity.
  - destruct s; cbn [spell app]; rewrite !start_weight_cons; lia.
Qed.

Lemma sub_options_setting posix s ctx args :
  letter s <> "m"%char ->
  sub_options posix ctx (spell s ++ args)
  = sub_options posix (sub_apply ctx s) args.
Proof.
  intros Hm.
  rewrite <- (sub_options_fuel posix
                (weight (getopt_start (spell s ++ args))) (sub_apply ctx s) args).
  - unfold sub_options, enough_fuel.
    destruct s, posix; try reflexivity; elim Hm; reflexivity.
  - destruct s; cbn [spell app]; rewrite !start_weight_cons; lia.
Qed.

Lemma command_line_cons s l rest :
  command_line (s :: l) ++ rest = spell s ++ command_line l ++ rest.
Proof.
  unfold command_line. cbn [flat_map].
  symmetry. apply (app_assoc (spell s)).
Qed.

Lemma pub_options_command_line posix l : forall ctx rest,
  pub_options posix ctx (command_line l ++ rest)
  = pub_options posix (fold_left pub_apply l ctx) rest.
Proof.
  induction l as [|s l IH]; intros ctx rest; [reflexivity|].
  rewrite command_line_cons, pub_options_setting. apply IH.
Qed.

Lemma sub_options_command_line posix l : forall ctx rest,
  Forall (fun s => letter s <> "m"%char) l ->
  sub_options posix ctx (command_line l ++ rest)
  = sub_options posix (fold_left sub_apply l ctx) rest.
Proof.
  induction l as [|s l IH]; intros ctx rest Hm; [reflexivity|].
  inversion Hm; subst.
  rewrite command_line_cons, sub_options_setting by assumption.
  apply IH. assumption.
Qed.

Lemma pub_fold_settled l : forall ctx,
  pub_settled l ctx (fold_left pub_apply l ctx) /\
  Pub.cmd (fold_left pub_apply l ctx) = Pub.cmd ctx /\
  Pub.exit_code (fold_left pub_apply l ctx) = Pub.exit_code ctx.
Proof.
  induction l as [|s l IH]; intros ctx.
  - unfold pub_settled. cbn. repeat split; reflexivity.
  - cbn [fold_left]. destruct (IH (pub_apply ctx s))
      as ((I1 & I2 & I3 & I4 & I5 & I6 & I7 & I8) & Ic & Ie).
    unfold pub_settled. cbn [last_value flagged existsb].
    fold (flagged "r" l).
    rewrite I1, I2, I3, I4, I5, I6, I7, I8, Ic, Ie.
    destruct s; cbn;
      destruct (last_value "i" l), (last_value "h" l), (last_value "p" l),
        (last_value "u" l), (last_value "P" l), (last_value "t" l),
        (last_value "m" l), (flagged "r" l);
      repeat split.
Qed.

Lemma sub_fold_settled l : forall ctx,
  sub_settled l ctx (fold_left sub_apply l ctx) /\
  Sub.cmd (fold_left sub_apply l ctx) = Sub.cmd ctx /\
  Sub.exit_code (fold_left sub_apply l ctx) = Sub.exit_code ctx.
Proof.
  induction l as [|s l IH]; intros ctx.
  - unfold sub_settled. cbn. repeat split; reflexivity.
  - cbn [fold_left]. destruct (IH (sub_apply ctx s))
      as ((I1 & I2 & I3 & I4 & I5 & I6 & I8) & Ic & Ie).
    unfold sub_settled. cbn [last_value flagged existsb].
    fold (flagged "r" l).
    rewrite I1, I2, I3, I4, I5, I6, I8, Ic, Ie.
    destruct s; cbn;
      destruct (last_value "i" l), (last_value "h" l), (last_value "p" l),
        (last_value "u" l), (last_value "P" l), (last_value "t" l),
        (flagged "r" l);
      repeat split.
Qed.

Lemma pub_options_end posix ctx : pub_options posix ctx [] = Ok ctx [].
Proof. destruct posix; reflexivity. Qed.

Lemma sub_options_end posix ctx : sub_options posix ctx [] = Ok ctx [].
Proof. destruct posix; reflexivity. Qed.

Lemma pub_command_line_parsed (posix : bool) (l : list setting) :
  exists ctx out,
    Pub.context_init posix (command_line l) = Ok ctx out /\
    pub_settled l Pub.initial ctx /\
    match last_value "t" l, last_value "m" l with
    | Some _, Some _ =>
        Pub.cmd ctx = Pub.COMMAND_PUB /\ Pub.exit_code ctx = EXIT_SUCCESS /\
        out = []
    | _, _ =>
        Pub.cmd ctx = Pub.COMMAND_SHOW_HELP /\
        Pub.exit_code ctx = EXIT_FAILURE /\
        out = [stderr ("error: topic or message not specified" +++ LF)]
    end.
Proof.
  rewrite pub_context_init_options.
  rewrite <- (app_nil_r (command_line l)), pub_options_command_line,
    pub_options_end.
  destruct (pub_fold_settled l Pub.initial) as (F & Fc & Fe).
  pose proof F as (_ & _ & _ & _ & _ & Ft & Fm & _).
  unfold Pub.check_required. rewrite Fc, Ft, Fm. cbn [Pub.initial Pub.cmd
    Pub.topic Pub.message Pub.is_pub andb or_else].
  destruct (last_value "t" l), (last_value "m" l); cbn [Pub.is_null orb];
    eexists _, _; (split; [reflexivity|]); (split; [exact F|]);
    repeat split; try assumption.
Qed.

(** X4.  The publisher accepts every command line of well-formed flags:
    short value flags with the value in the next element and [-r], in
    any number and order, whatever the values (also values that start
    with a dash).  Every field holds the last value given for its flag,
    or its initial value; the port is [atoi] of its value; retain is set
    when [-r] occurs.  With a topic and a message the command is the
    action, the exit code 0 and nothing is written; without, the command
    is show-usage, the exit code failure and one diagnostic is written. *)
Theorem pub_command_line_accepted (posix : bool) (l : list setting) :
  exists ctx out,
    Pub.context_init posix (command_line l) = Ok ctx out /\
    pub_settled l Pub.initial ctx /\
    match last_value "t" l, last_value "m" l with
    | Some _, Some _ =>
        Pub.cmd ctx = Pub.COMMAND_PUB /\ Pub.exit_code ctx = EXIT_SUCCESS /\
        out = []
    | _, _ =>
        Pub.cmd ctx = Pub.COMMAND_SHOW_HELP /\
        Pub.exit_code ctx = EXIT_FAILURE /\
        out = [stderr ("error: topic or message not specified" +++ LF)]
    end.
Proof.
  apply pub_command_line_parsed.
Qed.

Lemma sub_command_line_parsed (posix : bool) (l : list setting) :
  Forall (fun s => letter s <> "m"%char) l ->
  exists ctx out,
    Sub.context_init posix (command_line l) = Ok ctx out /\
    sub_settled l Sub.initial ctx /\
    match last_value "t" l with
    | Some _ =>
        Sub.cmd ctx = Sub.COMMAND_SUB /\ Sub.exit_code ctx = EXIT_SUCCESS /\
        out = []
    | None =>
        Sub.cmd ctx = Sub.COMMAND_SHOW_HELP /\
        Sub.exit_code ctx = EXIT_FAILURE /\
        out = [stderr ("error: missing topic" +++ LF)]
    end.
Proof.
  intros Hm. rewrite sub_context_init_options.
  rewrite <- (app_nil_r (command_line l)), sub_options_command_line,
    sub_options_end by exact Hm.
  destruct (sub_fold_settled l Sub.initial) as (F & Fc & Fe).
  pose proof F as (_ & _ & _ & _ & _ & Ft & _).
  unfold Sub.check_required. rewrite Fc, Ft. cbn [Sub.initial Sub.cmd
    Sub.topic Sub.is_sub andb or_else].
  destruct (last_value "t" l); cbn [Sub.is_null];
    eexists _, _; (split; [reflexivity|]); (split; [exact F|]);
    repeat split; try assumption.
Qed.

(** X5.  The subscriber accepts every command line of well-formed flags
    that has no [-m]: every field holds the last value given for its
    flag, or its initial value.  With a topic the command is the action,
    the exit code 0 and nothing is written; without, the command is
    show-usage, the exit code failure and the missing-topic diagnostic
    is written. *)
Theorem sub_command_line_accepted (posix : bool) (l : list setting) :
  Forall (fun s => letter s <> "m"%char) l ->
  exists ctx out,
    Sub.context_init posix (command_line l) = Ok ctx out /\
    sub_settled l Sub.initial ctx /\
    match last_value "t" l with
    | Some _ =>
        Sub.cmd ctx = Sub.COMMAND_SUB /\ Sub.exit_code ctx = EXIT_SUCCESS /\
        out = []
    | None =>
        Sub.cmd ctx = Sub.COMMAND_SHOW_HELP /\
        Sub.exit_code ctx = EXIT_FAILURE /\
        out = [stderr ("error: missing topic" +++ LF)]
    end.
Proof.
  intros; eapply sub_command_line_parsed; eassumption.
Qed.

Lemma published_ready w :
  published w = true ->
  Pub.failed (lib_init_rc w) = false /\ new_ok w = true /\
  Pub.failed (username_pw_set_rc w) = false /\
  Pub.failed (connect_rc w) = false /\ Pub.failed (publish_rc w) = false.
Proof.
  unfold published, connected, login_ready, handle_ready, lib_ready.
  intros H.
  apply andb_true_iff in H. destruct H as [H H5].
  apply andb_true_iff in H. destruct H as [H H4].
  apply andb_true_iff in H. destruct H as [H H3].
  apply andb_true_iff in H. destruct H as [H1 H2].
  apply negb_true_iff in H1, H3, H4, H5. repeat split; assumption.
Qed.

(** X12.  The publisher opens the session and publishes as its flags
    say.  For a command line of well-formed flags with a topic and a
    message, against a collaborator whose calls all succeed, [main]
    returns 0 and the run is exactly: library init; a new client with
    the last client id given (null if none) and a clean session; the
    last user and password given; a connection to the last host and port
    given (localhost, 1883 if none); one publish call with the last
    topic and message given, the length of the message, QoS 0 and retain
    as [-r] was given or not; destroy; library cleanup. *)
Theorem pub_main_runs_as_flagged
    (posix : bool) (w : world) (l : list setting) (t m : string) :
  published w = true ->
  last_value "t" l = Some t ->
  last_value "m" l = Some m ->
  Pub.main posix w (command_line l)
  = Ok 0
      [mosquitto_lib_init;
       mosquitto_new (last_value "i" l) true;
       mosquitto_username_pw_set (last_value "u" l) (last_value "P" l);
       mosquitto_connect (or_else (last_value "h" l) (Some "localhost"))
         (match last_value "p" l with
          | Some v => atoi v
          | None => MQTT_DEFAULT_PORT
          end) MQTT_KEEPALIVE;
       mosquitto_publish (Some t) (to_int (strlen m)) (Some m) MQTT_QOS
         (flagged "r" l);
       mosquitto_destroy; mosquitto_lib_cleanup].
Proof.
  intros P Ht Hm.
  destruct (pub_command_line_parsed posix l)
    as (ctx & out & E & (S1 & S2 & S3 & S4 & S5 & S6 & S7 & S8) & C).
  rewrite Ht, Hm in C. destruct C as (Hc & He & Ho). subst out.
  destruct (published_ready w P) as (P1 & P2 & P3 & P4 & P5).
  unfold Pub.main. rewrite E, Hc. unfold Pub.mqtt_pub.
  rewrite P1, P2, P3, P4, S7, Hm. cbn [negb or_else]. rewrite P5.
  unfold Pub.context_cleanup. rewrite He, S1, S2, S3, S4, S5, S6, S8, Ht.
  cbn [Pub.initial Pub.id Pub.host Pub.port Pub.user Pub.password Pub.topic
       Pub.retain or_else app].
  rewrite orb_false_r.
  destruct (last_value "i" l), (last_value "u" l), (last_value "P" l);
    reflexivity.
Qed.

Lemma pub_main_runs_as_flagged_witness :
  Pub.main false reachable_broker
    (command_line [opt_t "a"; opt_r; opt_m "x"; opt_p "8883"; opt_t "b"])
  = Ok 0
      [mosquitto_lib_init; mosquitto_new None true;
       mosquitto_username_pw_set None None;
       mosquitto_connect (Some "localhost") 8883 MQTT_KEEPALIVE;
       mosquitto_publish (Some "b") 1 (Some "x") MQTT_QOS true;
       mosquitto_destroy; mosquitto_lib_cleanup].
Proof.
  apply (pub_main_runs_as_flagged false reachable_broker
           [opt_t "a"; opt_r; opt_m "x"; opt_p "8883"; opt_t "b"] "b" "x");
    reflexivity.
Defined.

(** X13.  The subscriber opens the session and subscribes as its flags
    say.  For a command line of well-formed flags without [-m] and with
    a topic, when the collaborator accepts everything up to the
    subscription and [main] returns, the run starts with the two signal
    handlers, library init, a new client, the credentials, the message
    callback, the connection and one subscribe call with the last topic
    given at QoS 0; what follows holds no other subscribe call and one
    unsubscribe call, for the same topic. *)
Theorem sub_main_runs_as_flagged
    (posix : bool) (w : world) (l : list setting) (t : string)
    (z : Z) (out : list event) :
  Forall (fun s => letter s <> "m"%char) l ->
  subscribed w = true ->
  last_value "t" l = Some t ->
  Sub.main posix w (command_line l) = Ok z out ->
  exists rest,
    out = [signal SIGINT; signal SIGTERM; mosquitto_lib_init;
           mosquitto_new (last_value "i" l) true;
           mosquitto_username_pw_set (last_value "u" l) (last_value "P" l);
           mosquitto_message_callback_set;
           mosquitto_connect (or_else (last_value "h" l) (Some "localhost"))
             (match last_value "p" l with
              | Some v => atoi v
              | None => MQTT_DEFAULT_PORT
              end) MQTT_KEEPALIVE;
           mosquitto_subscribe (Some t) MQTT_QOS] ++ rest /\
    filter is_unsubscribe rest = [mosquitto_unsubscribe (Some t)] /\
    count is_subscribe rest = 0%nat.
Proof.
  intros M S Ht H.
  destruct (sub_command_line_parsed posix l M)
    as (ctx & out0 & E & (S1 & S2 & S3 & S4 & S5 & S6 & S8) & C).
  rewrite Ht in C, S6. destruct C as (Hc & He & Ho). subst out0.
  unfold Sub.main in H. rewrite E, Hc in H.
  destruct (Sub.mqtt_sub w ctx) as [ctx' out'| |] eqn:R; try discriminate H.
  inversion H; subst z out. clear H.
  destruct (mqtt_sub_run _ _ _ _ S R) as (rc & errno & t6 & L & _ & Eo).
  pose proof (receive_loop_events _ _ _ _ _ _ L) as F.
  pose proof (receive_loop_no_unsubscribe _ _ _ _ _ _ L) as U.
  eexists. split.
  - rewrite Eo. unfold sub_prologue.
    rewrite S1, S2, S3, S4, S5, S6.
    cbn [Sub.initial Sub.id Sub.host Sub.port Sub.user Sub.password Sub.topic
         or_else app].
    destruct (last_value "i" l), (last_value "u" l), (last_value "P" l);
      reflexivity.
  - split.
    + rewrite !filter_app, U.
      destruct (after_loop_events w ctx rc errno) as [A|[text A]]; rewrite A;
        destruct (Pub.failed (unsubscribe_rc w)); reflexivity.
    + rewrite !count_app. rewrite (count_none _ t6 F) by other_kind.
      destruct (after_loop_events w ctx rc errno) as [A|[text A]]; rewrite A;
        destruct (Pub.failed (unsubscribe_rc w)); reflexivity.
Qed.

Lemma sub_main_runs_as_flagged_witness :
  exists rest,
    events_of (Sub.main false reachable_broker
                 (command_line [opt_u "me"; opt_t "a"; opt_h "broker"]))
    = [signal SIGINT; signal SIGTERM; mosquitto_lib_init;
       mosquitto_new None true;
       mosquitto_username_pw_set (Some "me") None;
       mosquitto_message_callback_set;
       mosquitto_connect (Some "broker") 1883 MQTT_KEEPALIVE;
       mosquitto_subscribe (Some "a") MQTT_QOS] ++ rest /\
    filter is_unsubscribe rest = [mosquitto_unsubscribe (Some "a")] /\
    count is_subscribe rest = 0%nat.
Proof.
  apply (sub_main_runs_as_flagged false reachable_broker
           [opt_u "me"; opt_t "a"; opt_h "broker"] "a" 0).
  - repeat constructor; discriminate.
  - reflexivity.
  - reflexivity.
  - reflexivity.
Defined.

(** ** Other spellings and what is never read *)

Lemma pub_options_attached posix s ctx args :
  has_value s = true ->
  pub_options posix ctx (spell_attached s ++ args)
  = pub_options posix (pub_apply ctx s) args.
Proof.
  intros Hv.
  rewrite <- (pub_options_fuel posix
                (weight (getopt_start (spell_attached s ++ args)))
                (pub_apply ctx s) args).
  - unfold pub_options, enough_fuel.
    destruct s as [v|v|v|v|v| |v|v]; try destruct v as [|a v];
      try discriminate Hv; destruct posix; reflexivity.
  - destruct s; cbn [spell_attached app]; rewrite !start_weight_cons; lia.
Qed.

Lemma sub_options_attached posix s ctx args :
  has_value s = true -> letter s <> "m"%char ->
  sub_options posix ctx (spell_attached s ++ args)
  = sub_options posix (sub_apply ctx s) args.
Proof.
  intros Hv Hm.
  rewrite <- (sub_options_fuel posix
                (weight (getopt_start (spell_attached s ++ args)))
                (sub_apply ctx s) args).
  - unfold sub_options, enough_fuel.
    destruct s as [v|v|v|v|v| |v|v]; try destruct v as [|a v];
      try discriminate Hv; try (elim Hm; reflexivity);
      destruct posix; reflexivity.
  - destruct s; cbn [spell_attached app]; rewrite !start_weight_cons; lia.
Qed.

Lemma pub_options_attached_line posix l : forall ctx rest,
  forallb has_value l = true ->
  pub_options posix ctx (command_line_attached l ++ rest)
  = pub_options posix (fold_left pub_apply l ctx) rest.
Proof.
  induction l as [|s l IH]; intros ctx rest Hv; [reflexivity|].
  cbn [forallb] in Hv. apply andb_true_iff in Hv. destruct Hv as [Hs Hl].
  unfold command_line_attached. cbn [flat_map].
  rewrite <- (app_assoc (spell_attached s)).
  rewrite pub_options_attached by exact Hs. apply IH. exact Hl.
Qed.

Lemma sub_options_attached_line posix l : forall ctx rest,
  forallb has_value l = true ->
  Forall (fun s => letter s <> "m"%char) l ->
  sub_options posix ctx (command_line_attached l ++ rest)
  = sub_options posix (fold_left sub_apply l ctx) rest.
Proof.
  induction l as [|s l IH]; intros ctx rest Hv Hm; [reflexivity|].
  cbn [forallb] in Hv. apply andb_true_iff in Hv. destruct Hv as [Hs Hl].
  inversion Hm; subst.
  unfold command_line_attached. cbn [flat_map].
  rewrite <- (app_assoc (spell_attached s)).
  rewrite sub_options_attached by assumption. apply IH; assumption.
Qed.

(** X6.  A value attached to its flag in one element, as in [-ttest],
    gives the configuration of the value in the next element, [-t test],
    in both programs, for every command line of flags whose values are
    not empty. *)
Theorem attached_values_count (posix : bool) (l : list setting) :
  forallb has_value l = true ->
  Pub.context_init posix (command_line_attached l)
  = Pub.context_init posix (command_line l) /\
  (Forall (fun s => letter s <> "m"%char) l ->
   Sub.context_init posix (command_line_attached l)
   = Sub.context_init posix (command_line l)).
Proof.
  intros Hv. split.
  - rewrite !pub_context_init_options.
    rewrite <- (app_nil_r (command_line_attached l)),
      <- (app_nil_r (command_line l)).
    rewrite pub_options_attached_line, pub_options_command_line by exact Hv.
    reflexivity.
  - intros Hm. rewrite !sub_context_init_options.
    rewrite <- (app_nil_r (command_line_attached l)),
      <- (app_nil_r (command_line l)).
    rewrite sub_options_attached_line, sub_options_command_line by assumption.
    reflexivity.
Qed.

Lemma attached_values_count_witness :
  Pub.context_init false ["-ttest"; "-r"; "-mhello"]
  = Pub.context_init false ["-t"; "test"; "-r"; "-m"; "hello"] /\
  Sub.context_init true ["-p8883"; "-ttest"]
  = Sub.context_init true ["-p"; "8883"; "-t"; "test"].
Proof.
  split.
  - apply (proj1 (attached_values_count false
                    [opt_t "test"; opt_r; opt_m "hello"] eq_refl)).
  - apply (proj2 (attached_values_count true
                    [opt_p "8883"; opt_t "test"] eq_refl)).
    repeat constructor; discriminate.
Defined.

Lemma pub_options_operand ctx x args :
  NONOPTION_P x = true ->
  pub_options false ctx (x :: args) = pub_options false ctx args.
Proof.
  intros Hx.
  rewrite <- (pub_options_fuel false (enough_fuel (x :: args)) ctx args)
    by (unfold enough_fuel; rewrite start_weight_cons; lia).
  unfold pub_options, enough_fuel. cbn [option_loop].
  unfold getopt_long. cbn [getopt_initialize Pub.optstring].
  unfold getopt_step. cbn [nextchar rest getopt_start skip_nonoptions].
  rewrite Hx. reflexivity.
Qed.

Lemma sub_options_operand ctx x args :
  NONOPTION_P x = true ->
  sub_options false ctx (x :: args) = sub_options false ctx args.
Proof.
  intros Hx.
  rewrite <- (sub_options_fuel false (enough_fuel (x :: args)) ctx args)
    by (unfold enough_fuel; rewrite start_weight_cons; lia).
  unfold sub_options, enough_fuel. cbn [option_loop].
  unfold getopt_long. cbn [getopt_initialize Sub.optstring].
  unfold getopt_step. cbn [nextchar rest getopt_start skip_nonoptions].
  rewrite Hx. reflexivity.
Qed.

Lemma not_terminator x : NONOPTION_P x = true -> String.eqb x "--" = false.
Proof.
  destruct x as [|a r]; [reflexivity|].
  intros H. cbn [String.eqb].
  destruct (Ascii.eqb a "-") eqn:E; [|reflexivity].
  destruct r as [|b r]; [reflexivity|].
  apply Ascii.eqb_eq in E. subst a. discriminate H.
Qed.

Lemma pub_options_operand_posix ctx x args :
  NONOPTION_P x = true ->
  pub_options true ctx (x :: args) = Ok ctx [].
Proof.
  intros Hx. unfold pub_options, enough_fuel. cbn [option_loop].
  unfold getopt_long. cbn [getopt_initialize Pub.optstring].
  unfold getopt_step. cbn [nextchar rest getopt_start].
  rewrite (not_terminator x Hx), Hx. reflexivity.
Qed.

Lemma sub_options_operand_posix ctx x args :
  NONOPTION_P x = true ->
  sub_options true ctx (x :: args) = Ok ctx [].
Proof.
  intros Hx. unfold sub_options, enough_fuel. cbn [option_loop].
  unfold getopt_long. cbn [getopt_initialize Sub.optstring].
  unfold getopt_step. cbn [nextchar rest getopt_start].
  rewrite (not_terminator x Hx), Hx. reflexivity.
Qed.

(** X7.  An element that is not an option (it does not start with a
    dash, or is a dash alone), standing after well-formed flags: without
    [POSIXLY_CORRECT] both programs skip it and parse what follows; with
    it they stop parsing there, and what follows is not read. *)
Theorem operands_are_skipped
    (l : list setting) (x : string) (others : list string) :
  NONOPTION_P x = true ->
  Pub.context_init false (command_line l ++ x :: others)
  = Pub.context_init false (command_line l ++ others) /\
  Pub.context_init true (command_line l ++ x :: others)
  = Pub.context_init true (command_line l) /\
  (Forall (fun s => letter s <> "m"%char) l ->
   Sub.context_init false (command_line l ++ x :: others)
   = Sub.context_init false (command_line l ++ others) /\
   Sub.context_init true (command_line l ++ x :: others)
   = Sub.context_init true (command_line l)).
Proof.
  intros Hx. split; [|split].
  - rewrite !pub_context_init_options, !pub_options_command_line.
    rewrite pub_options_operand by exact Hx. reflexivity.
  - rewrite !pub_context_init_options.
    rewrite <- (app_nil_r (command_line l)) at 2.
    rewrite !pub_options_command_line.
    rewrite pub_options_operand_posix, pub_options_end by exact Hx.
    reflexivity.
  - intros Hm. split.
    + rewrite !sub_context_init_options, !sub_options_command_line by exact Hm.
      rewrite sub_options_operand by exact Hx. reflexivity.
    + rewrite !sub_context_init_options.
      rewrite <- (app_nil_r (command_line l)) at 2.
      rewrite !sub_options_command_line by exact Hm.
      rewrite sub_options_operand_posix, sub_options_end by exact Hx.
      reflexivity.
Qed.

Lemma operands_are_skipped_witness :
  Pub.context_init false ["-t"; "test"; "stray"; "-m"; "hello"]
  = Pub.context_init false ["-t"; "test"; "-m"; "hello"] /\
  Pub.context_init true ["-t"; "test"; "stray"; "-m"; "hello"]
  = Pub.context_init true ["-t"; "test"].
Proof.
  destruct (operands_are_skipped [opt_t "test"] "stray" ["-m"; "hello"] eq_refl)
    as (H1 & H2 & _).
  split; [exact H1 | exact H2].
Defined.

Lemma pub_options_terminator posix ctx others :
  pub_options posix ctx ("--" :: others) = Ok ctx [].
Proof. destruct posix; reflexivity. Qed.

Lemma sub_options_terminator posix ctx others :
  sub_options posix ctx ("--" :: others) = Ok ctx [].
Proof. destruct posix; reflexivity. Qed.

Lemma pub_options_help posix ctx h others :
  h = "-H" \/ h = "--help" ->
  pub_options posix ctx (h :: others)
  = Ok (Pub.set_cmd ctx Pub.COMMAND_SHOW_HELP) [].
Proof. intros [-> | ->]; destruct posix; reflexivity. Qed.

Lemma sub_options_help posix ctx h others :
  h = "-H" \/ h = "--help" ->
  sub_options posix ctx (h :: others)
  = Ok (Sub.set_cmd ctx Sub.COMMAND_SHOW_HELP) [].
Proof. intros [-> | ->]; destruct posix; reflexivity. Qed.

(** X8.  Nothing is read after the terminator or after the help flag, in
    both programs.  After well-formed flags, [--] gives the
    configuration of those flags alone, and [-H] or [--help] gives their
    fields with the command at show-usage, the exit code at success and
    nothing written, whatever follows. *)
Theorem rest_is_never_read
    (posix : bool) (l : list setting) (others : list string) :
  Pub.context_init posix (command_line l ++ "--" :: others)
  = Pub.context_init posix (command_line l) /\
  Pub.context_init posix (command_line l ++ "-H" :: others)
  = Ok (Pub.set_cmd (fold_left pub_apply l Pub.initial)
          Pub.COMMAND_SHOW_HELP) [] /\
  Pub.context_init posix (command_line l ++ "--help" :: others)
  = Ok (Pub.set_cmd (fold_left pub_apply l Pub.initial)
          Pub.COMMAND_SHOW_HELP) [] /\
  (Forall (fun s => letter s <> "m"%char) l ->
   Sub.context_init posix (command_line l ++ "--" :: others)
   = Sub.context_init posix (command_line l) /\
   Sub.context_init posix (command_line l ++ "-H" :: others)
   = Ok (Sub.set_cmd (fold_left sub_apply l Sub.initial)
           Sub.COMMAND_SHOW_HELP) [] /\
   Sub.context_init posix (command_line l ++ "--help" :: others)
   = Ok (Sub.set_cmd (fold_left sub_apply l Sub.initial)
           Sub.COMMAND_SHOW_HELP) []).
Proof.
  split; [|split; [|split]].
  - rewrite !pub_context_init_options.
    rewrite <- (app_nil_r (command_line l)) at 2.
    rewrite !pub_options_command_line, pub_options_terminator, pub_options_end.
    reflexivity.
  - rewrite pub_context_init_options, pub_options_command_line,
      (pub_options_help posix _ "-H") by (left; reflexivity).
    reflexivity.
  - rewrite pub_context_init_options, pub_options_command_line,
      (pub_options_help posix _ "--help") by (right; reflexivity).
    reflexivity.
  - intros Hm. split; [|split].
    + rewrite !sub_context_init_options.
      rewrite <- (app_nil_r (command_line l)) at 2.
      rewrite !sub_options_command_line, sub_options_terminator,
        sub_options_end by exact Hm.
      reflexivity.
    + rewrite sub_context_init_options, sub_options_command_line,
        (sub_options_help posix _ "-H") by (exact Hm || (left; reflexivity)).
      reflexivity.
    + rewrite sub_context_init_options, sub_options_command_line,
        (sub_options_help posix _ "--help")
        by (exact Hm || (right; reflexivity)).
      reflexivity.
Qed.

Lemma rest_is_never_read_witness :
  Sub.context_init false ["-t"; "test"; "--"; "-x"]
  = Sub.context_init false ["-t"; "test"] /\
  Sub.context_init false ["-t"; "test"; "-H"; "--bogus"]
  = Ok (Sub.set_cmd (Sub.set_topic Sub.initial (Some "test"))
          Sub.COMMAND_SHOW_HELP) [].
Proof.
  split.
  - apply (proj2 (proj2 (proj2
             (rest_is_never_read false [opt_t "test"] ["-x"])))).
    repeat constructor; discriminate.
  - apply (proj2 (proj2 (proj2
             (rest_is_never_read false [opt_t "test"] ["--bogus"])))).
    repeat constructor; discriminate.
Defined.

Lemma pub_options_unknown_letter posix ctx c tail others :
  pub_letter c = false -> c <> "-"%char ->
  pub_options posix ctx (String "-" (String c tail) :: others)
  = Ok (pub_refused ctx) unknown_option.
Proof.
  intros Hl Hd. unfold pub_options, enough_fuel.
  destruct c as [[] [] [] [] [] [] [] []];
    try discriminate Hl; try (elim Hd; reflexivity);
    destruct posix; reflexivity.
Qed.

Lemma sub_options_unknown_letter posix ctx c tail others :
  sub_letter c = false -> c <> "-"%char -> c <> "m"%char ->
  sub_options posix ctx (String "-" (String c tail) :: others)
  = Ok (sub_refused ctx) unknown_option.
Proof.
  intros Hl Hd Hm. unfold sub_options, enough_fuel.
  destruct c as [[] [] [] [] [] [] [] []];
    try discriminate Hl; try (elim Hd; reflexivity);
    try (elim Hm; reflexivity);
    destruct posix; reflexivity.
Qed.

Lemma sub_options_message posix ctx tail others :
  sub_options posix ctx (("-m" +++ tail) :: others)
  = Ok (sub_refused ctx) unknown_option.
Proof.
  unfold sub_options, enough_fuel.
  destruct tail, others, posix; reflexivity.
Qed.

Lemma pub_options_no_value posix ctx f :
  In f ["-i"; "-h"; "-p"; "-u"; "-P"; "-t"; "-m"] ->
  pub_options posix ctx [f] = Ok (pub_refused ctx) unknown_option.
Proof.
  cbn [In]. intros H.
  repeat (destruct H as [<- | H]; [destruct posix; reflexivity|]).
  destruct H.
Qed.

Lemma sub_options_no_value posix ctx f :
  In f ["-i"; "-h"; "-p"; "-u"; "-P"; "-t"; "-m"] ->
  sub_options posix ctx [f] = Ok (sub_refused ctx) unknown_option.
Proof.
  cbn [In]. intros H.
  repeat (destruct H as [<- | H]; [destruct posix; reflexivity|]).
  destruct H.
Qed.

(** X9.  Flags the publisher refuses.  After well-formed flags, a value
    flag that ends the argument vector without a value, and an element
    that starts with a dash and a letter that is no case of the
    [switch], end the parsing with the command at show-usage, the exit
    code at failure and the diagnostic for an unknown option; the values
    parsed before are kept and what follows is not read. *)
Theorem pub_flags_refused (posix : bool) (l : list setting) :
  (forall f,
      In f ["-i"; "-h"; "-p"; "-u"; "-P"; "-t"; "-m"] ->
      Pub.context_init posix (command_line l ++ [f])
      = Ok (pub_refused (fold_left pub_apply l Pub.initial)) unknown_option)
  /\
  (forall c tail others,
      pub_letter c = false -> c <> "-"%char ->
      Pub.context_init posix
        (command_line l ++ String "-" (String c tail) :: others)
      = Ok (pub_refused (fold_left pub_apply l Pub.initial)) unknown_option).
Proof.
  split.
  - intros f Hf.
    rewrite pub_context_init_options, pub_options_command_line,
      pub_options_no_value by exact Hf.
    reflexivity.
  - intros c tail others Hl Hd.
    rewrite pub_context_init_options, pub_options_command_line,
      pub_options_unknown_letter by assumption.
    reflexivity.
Qed.

Lemma pub_flags_refused_witness :
  Pub.context_init false ["-m"; "hello"; "-t"]
  = Ok (pub_refused (Pub.set_message Pub.initial (Some "hello")))
      unknown_option /\
  Pub.context_init false ["-t"; "test"; "-m"; "hello"; "-q"; "-H"]
  = Ok (pub_refused
          (Pub.set_message (Pub.set_topic Pub.initial (Some "test"))
             (Some "hello")))
      unknown_option.
Proof.
  split.
  - apply (proj1 (pub_flags_refused false [opt_m "hello"]) "-t").
    cbn [In]. tauto.
  - apply (proj2 (pub_flags_refused false [opt_t "test"; opt_m "hello"])
             "q"%char "" ["-H"]); [reflexivity | discriminate].
Defined.

(** X10.  Flags the subscriber refuses: as the publisher, and [-m] in
    every form as well, with or without a value, since the [switch] of
    the subscriber has no case for it although its option string lists
    it. *)
Theorem sub_flags_refused (posix : bool) (l : list setting) :
  Forall (fun s => letter s <> "m"%char) l ->
  (forall f,
      In f ["-i"; "-h"; "-p"; "-u"; "-P"; "-t"; "-m"] ->
      Sub.context_init posix (command_line l ++ [f])
      = Ok (sub_refused (fold_left sub_apply l Sub.initial)) unknown_option)
  /\
  (forall c tail others,
      sub_letter c = false -> c <> "-"%char ->
      Sub.context_init posix
        (command_line l ++ String "-" (String c tail) :: others)
      = Ok (sub_refused (fold_left sub_apply l Sub.initial)) unknown_option).
Proof.
  intros Hm. split.
  - intros f Hf.
    rewrite sub_context_init_options, sub_options_command_line,
      sub_options_no_value by assumption.
    reflexivity.
  - intros c tail others Hl Hd.
    rewrite sub_context_init_options, sub_options_command_line by exact Hm.
    destruct (Ascii.eqb_spec c "m") as [-> | Hc].
    + rewrite (sub_options_message posix _ tail others). reflexivity.
    + rewrite sub_options_unknown_letter by assumption. reflexivity.
Qed.

Lemma sub_flags_refused_witness :
  Sub.context_init false ["-t"; "test"; "-m"; "hello"]
  = Ok (sub_refused (Sub.set_topic Sub.initial (Some "test")))
      unknown_option /\
  Sub.context_init false ["-t"]
  = Ok (sub_refused Sub.initial) unknown_option.
Proof.
  split.
  - apply (proj2 (sub_flags_refused false [opt_t "test"]
                    ltac:(repeat constructor; discriminate))
             "m"%char "" ["hello"]); [reflexivity | discriminate].
  - apply (proj1 (sub_flags_refused false []
                    ltac:(constructor)) "-t").
    cbn [In]. tauto.
Defined.

Lemma pub_options_retain posix ctx others :
  pub_options posix ctx ("--retain" :: others)
  = pub_options posix (Pub.set_retain ctx true) others.
Proof.
  rewrite <- (pub_options_fuel posix
                (weight (getopt_start ("--retain" :: others)))
                (Pub.set_retain ctx true) others)
    by (rewrite start_weight_cons; lia).
  unfold pub_options, enough_fuel. destruct posix; reflexivity.
Qed.

Lemma sub_options_retain posix ctx others :
  sub_options posix ctx ("--retain" :: others)
  = sub_options posix (Sub.set_retain ctx true) others.
Proof.
  rewrite <- (sub_options_fuel posix
                (weight (getopt_start ("--retain" :: others)))
                (Sub.set_retain ctx true) others)
    by (rewrite start_weight_cons; lia).
  unfold sub_options, enough_fuel. destruct posix; reflexivity.
Qed.

(** X11.  The long spelling [--retain] of the retain flag gives the
    configuration of [-r], in both programs, after well-formed flags and
    whatever follows. *)
Theorem long_retain_is_short_retain
    (posix : bool) (l : list setting) (others : list string) :
  Pub.context_init posix (command_line l ++ "--retain" :: others)
  = Pub.context_init posix (command_line l ++ "-r" :: others) /\
  (Forall (fun s => letter s <> "m"%char) l ->
   Sub.context_init posix (command_line l ++ "--retain" :: others)
   = Sub.context_init posix (command_line l ++ "-r" :: others)).
Proof.
  split.
  - rewrite !pub_context_init_options, !pub_options_command_line.
    rewrite pub_options_retain.
    rewrite (pub_options_setting posix opt_r _ others). reflexivity.
  - intros Hm.
    rewrite !sub_context_init_options, !sub_options_command_line by exact Hm.
    rewrite sub_options_retain.
    rewrite (sub_options_setting posix opt_r _ others) by discriminate.
    reflexivity.
Qed.

Lemma long_retain_is_short_retain_witness :
  Sub.context_init false ["-t"; "test"; "--retain"]
  = Sub.context_init false ["-t"; "test"; "-r"].
Proof.
  apply (proj2 (long_retain_is_short_retain false [opt_t "test"] [])).
  repeat constructor; discriminate.
Defined.

(** ** The configuration and the exit status *)

Lemma mqtt_pub_finishes w ctx : Pub.mqtt_pub w ctx <> Unfinished.
Proof.
  unfold Pub.mqtt_pub.
  destruct (Pub.failed (lib_init_rc w)); [discriminate|].
  destruct (new_ok w); [|discriminate].
  destruct (Pub.failed (username_pw_set_rc w)); [discriminate|].
  destruct (Pub.failed (connect_rc w)); [discriminate|].
  destruct (Pub.message ctx); [|discriminate].
  destruct (Pub.failed (publish_rc w)); discriminate.
Qed.

(** X1.  For every argument vector the option loop of [context_init]
    comes to an end in both programs: it never uses up the steps it is
    given, since every call of [getopt_long] that does not return -1
    consumes part of the argument vector.  [main] of the publisher comes
    to an end as well. *)
Theorem parsing_terminates (posix : bool) (w : world) (args : list string) :
  Pub.context_init posix args <> Unfinished /\
  Sub.context_init posix args <> Unfinished /\
  Pub.main posix w args <> Unfinished.
Proof.
  split; [apply pub_context_init_finishes|].
  split; [apply sub_context_init_finishes|].
  unfold Pub.main.
  pose proof (pub_context_init_finishes posix args) as F.
  destruct (Pub.context_init posix args) as [ctx out| |];
    [|discriminate|elim F; reflexivity].
  destruct (Pub.cmd ctx); [|discriminate].
  pose proof (mqtt_pub_finishes w ctx) as M.
  destruct (Pub.mqtt_pub w ctx); [discriminate|discriminate|elim M; reflexivity].
Qed.

Lemma configuration_invariant (posix : bool) (args : list string) :
  (forall ctx out,
      Pub.context_init posix args = Ok ctx out ->
      (Pub.cmd ctx = Pub.COMMAND_PUB ->
       Pub.topic ctx <> None /\ Pub.message ctx <> None /\
       Pub.exit_code ctx = EXIT_SUCCESS /\ out = []) /\
      (Pub.exit_code ctx = EXIT_FAILURE ->
       Pub.cmd ctx = Pub.COMMAND_SHOW_HELP) /\
      (Pub.exit_code ctx = EXIT_SUCCESS \/ Pub.exit_code ctx = EXIT_FAILURE))
  /\
  (forall ctx out,
      Sub.context_init posix args = Ok ctx out ->
      (Sub.cmd ctx = Sub.COMMAND_SUB ->
       Sub.topic ctx <> None /\
       Sub.exit_code ctx = EXIT_SUCCESS /\ out = []) /\
      (Sub.exit_code ctx = EXIT_FAILURE ->
       Sub.cmd ctx = Sub.COMMAND_SHOW_HELP) /\
      (Sub.exit_code ctx = EXIT_SUCCESS \/ Sub.exit_code ctx = EXIT_FAILURE)).
Proof.
  split; intros ctx out H.
  - apply pub_context_init_ok in H. destruct H as (_ & c & a & _ & I).
    destruct I as [(_ & A & Hc & He & Ho)|[(_ & A & Hc & He)|
                   [(_ & Hc & He & Ho)|(_ & Hc & He)]]];
      rewrite Hc, He; (split; [|split]); try discriminate; auto.
    intros _. unfold pub_required_absent in A.
    apply orb_false_iff in A. destruct A as [At Am].
    repeat split; try assumption.
    + destruct (Pub.topic ctx); [discriminate | discriminate At].
    + destruct (Pub.message ctx); [discriminate | discriminate Am].
  - apply sub_context_init_ok in H. destruct H as (_ & c & a & _ & I).
    destruct I as [(_ & A & Hc & He & Ho)|[(_ & A & Hc & He)|
                   [(_ & Hc & He & Ho)|(_ & Hc & He)]]];
      rewrite Hc, He; (split; [|split]); try discriminate; auto.
    intros _. unfold sub_required_absent in A.
    repeat split; try assumption.
    destruct (Sub.topic ctx); [discriminate | discriminate A].
Qed.

(** X2.  The invariant of the configuration, in both programs.  After
    [context_init], when the command is the action ([COMMAND_PUB],
    [COMMAND_SUB]) the topic, and in the publisher the message, is not
    null, the exit code is [EXIT_SUCCESS] and nothing was written to the
    error stream; an exit code [EXIT_FAILURE] goes with the command
    show-usage; the exit code is 0 or 1. *)
Theorem context_invariant (posix : bool) (args : list string) :
  (forall ctx out,
      Pub.context_init posix args = Ok ctx out ->
      (Pub.cmd ctx = Pub.COMMAND_PUB ->
       Pub.topic ctx <> None /\ Pub.message ctx <> None /\
       Pub.exit_code ctx = EXIT_SUCCESS /\ out = []) /\
      (Pub.exit_code ctx = EXIT_FAILURE ->
       Pub.cmd ctx = Pub.COMMAND_SHOW_HELP) /\
      (Pub.exit_code ctx = EXIT_SUCCESS \/ Pub.exit_code ctx = EXIT_FAILURE))
  /\
  (forall ctx out,
      Sub.context_init posix args = Ok ctx out ->
      (Sub.cmd ctx = Sub.COMMAND_SUB ->
       Sub.topic ctx <> None /\
       Sub.exit_code ctx = EXIT_SUCCESS /\ out = []) /\
      (Sub.exit_code ctx = EXIT_FAILURE ->
       Sub.cmd ctx = Sub.COMMAND_SHOW_HELP) /\
      (Sub.exit_code ctx = EXIT_SUCCESS \/ Sub.exit_code ctx = EXIT_FAILURE)).
Proof.
  intros; eapply configuration_invariant; eassumption.
Qed.

Lemma context_invariant_witness :
  exists ctx out,
    Pub.context_init false ["-t"; "test"; "-m"; "hello"] = Ok ctx out /\
    Pub.topic ctx <> None /\ Pub.message ctx <> None /\
    Pub.exit_code ctx = EXIT_SUCCESS /\ out = [].
Proof.
  eexists _, _. split; [reflexivity|].
  apply (proj1 (proj1 (context_invariant false
                         ["-t"; "test"; "-m"; "hello"]) _ _ eq_refl)).
  reflexivity.
Defined.

Lemma receive_loop_defined replies : forall rc sd errno,
  Sub.receive_loop rc sd errno replies <> Undefined.
Proof.
  induction replies as [|r tl IH]; intros rc sd errno; simpl;
    destruct ((rc =? MOSQ_ERR_SUCCESS) && negb sd); try discriminate.
  specialize (IH (loop_rc r) (sd || signalled r)%bool (loop_errno r)).
  destruct (Sub.receive_loop (loop_rc r) (sd || signalled r) (loop_errno r) tl);
    [discriminate | elim IH; reflexivity | discriminate].
Qed.

Lemma mqtt_sub_defined w ctx : Sub.mqtt_sub w ctx <> Undefined.
Proof.
  unfold Sub.mqtt_sub.
  destruct (Sub.failed (lib_init_rc w)); [discriminate|].
  destruct (new_ok w); [|discriminate].
  destruct (Sub.failed (username_pw_set_rc w)); [discriminate|].
  destruct (Sub.failed (connect_rc w)); [discriminate|].
  destruct (Sub.failed (subscribe_rc w)); [discriminate|].
  pose proof (receive_loop_defined (loop_replies w) (subscribe_rc w)
                (signalled_early w) (errno_early w)) as D.
  destruct (Sub.receive_loop (subscribe_rc w) (signalled_early w)
              (errno_early w) (loop_replies w)) as [[rc errno] t| |];
    [|elim D; reflexivity|discriminate].
  destruct (Sub.after_loop w ctx rc errno) as [ctx1 t7].
  destruct (Sub.unsubscribe_step w ctx1). discriminate.
Qed.

Lemma mqtt_sub_context w ctx ctx' out :
  Sub.mqtt_sub w ctx = Ok ctx' out ->
  ctx' = ctx \/ ctx' = Sub.set_exit_code ctx EXIT_FAILURE.
Proof.
  intros H. destruct (subscribed w) eqn:S.
  - destruct (mqtt_sub_run _ _ _ _ S H) as (rc & errno & t6 & _ & E & _).
    subst ctx'. unfold Sub.after_loop.
    destruct ((MOSQ_ERR_SUCCESS =? rc) && negb (errno =? EINTR)); auto.
  - destruct (mqtt_sub_not_subscribed w ctx S) as (out' & E & _).
    rewrite E in H. inversion H. auto.
Qed.

(** X3.  Whenever [context_init] yields a configuration, [main] of the
    publisher returns, with 0 or 1: [mqtt_pub] is only run with a
    message that is not null, so that its [strlen] call, the one call
    of [mqtt_pub] that a null pointer would make undefined, never gets
    one.  [main] of the subscriber returns 0 or 1 whenever it returns. *)
Theorem main_returns_zero_or_one
    (posix : bool) (w : world) (args : list string) :
  (forall ctx out,
      Pub.context_init posix args = Ok ctx out ->
      exists z out',
        Pub.main posix w args = Ok z out' /\
        (z = EXIT_SUCCESS \/ z = EXIT_FAILURE))
  /\
  (forall z out',
      Sub.main posix w args = Ok z out' ->
      z = EXIT_SUCCESS \/ z = EXIT_FAILURE).
Proof.
  split.
  - intros ctx out H.
    destruct (proj1 (configuration_invariant posix args) _ _ H) as (I1 & _ & I3).
    unfold Pub.main. rewrite H.
    destruct (Pub.cmd ctx) eqn:C.
    + destruct (I1 eq_refl) as (_ & Hm & He & _).
      destruct (Pub.mqtt_pub w ctx) as [ctx' out'| |] eqn:R.
      * exists (Pub.context_cleanup ctx'), (out ++ out').
        split; [reflexivity|].
        apply mqtt_pub_result in R. destruct R as (E & _).
        subst ctx'. unfold Pub.context_cleanup.
        destruct (published w); [left; exact He | right; reflexivity].
      * exfalso. revert R. unfold Pub.mqtt_pub.
        destruct (Pub.failed (lib_init_rc w)); [discriminate|].
        destruct (new_ok w); [|discriminate].
        destruct (Pub.failed (username_pw_set_rc w)); [discriminate|].
        destruct (Pub.failed (connect_rc w)); [discriminate|].
        destruct (Pub.message ctx); [|elim Hm; reflexivity].
        destruct (Pub.failed (publish_rc w)); discriminate.
      * elim (mqtt_pub_finishes w ctx R).
    + eexists _, _. split; [reflexivity | exact I3].
  - intros z o. unfold Sub.main.
    destruct (Sub.context_init posix args) as [ctx out| |] eqn:H;
      try discriminate.
    destruct (proj2 (configuration_invariant posix args) _ _ H) as (I1 & _ & I3).
    destruct (Sub.cmd ctx) eqn:C.
    + destruct (I1 eq_refl) as (_ & He & _).
      destruct (Sub.mqtt_sub w ctx) as [ctx' out'| |] eqn:R;
        try discriminate.
      intros E. inversion E; subst z o.
      apply mqtt_sub_context in R. unfold Sub.context_cleanup.
      destruct R as [-> | ->]; [left; exact He | right; reflexivity].
    + intros E. inversion E; subst z o. exact I3.
Qed.

Lemma main_returns_zero_or_one_witness :
  (exists z out,
      Pub.main false reachable_broker ["-t"; "test"; "-m"; "hello"; "-x"]
      = Ok z out /\
      (z = EXIT_SUCCESS \/ z = EXIT_FAILURE))
  /\
  (exists z out,
      Sub.main false reachable_broker ["-t"; "test"] = Ok z out /\
      (z = EXIT_SUCCESS \/ z = EXIT_FAILURE)).
Proof.
  split.
  - apply (proj1 (main_returns_zero_or_one false reachable_broker
                    ["-t"; "test"; "-m"; "hello"; "-x"]) _ _ eq_refl).
  - eexists _, _. split; [reflexivity|].
    apply (proj2 (main_returns_zero_or_one false reachable_broker
                    ["-t"; "test"]) _ _ eq_refl).
Defined.

(** ** The payload the handler prints *)

Lemma c_str_length s : (String.length (c_str s) <= String.length s)%nat.
Proof.
  induction s as [|a r IH]; [apply Nat.le_refl|].
  cbn [c_str]. destruct (Ascii.eqb a NUL); cbn [String.length]; lia.
Qed.

Lemma string_firstn_length n s : (String.length (string_firstn n s) <= n)%nat.
Proof.
  revert s. induction n as [|n IH]; intros s; [apply Nat.le_refl|].
  destruct s as [|a r]; cbn [string_firstn String.length]; [lia|].
  specialize (IH r). lia.
Qed.

Lemma c_str_firstn_prefix n s :
  String.prefix (c_str (string_firstn n s)) s = true.
Proof.
  revert s. induction n as [|n IH]; intros s.
  - destruct s; reflexivity.
  - destruct s as [|a r]; [reflexivity|].
    cbn [string_firstn c_str]. destruct (Ascii.eqb a NUL); [reflexivity|].
    cbn [String.prefix]. destruct (Ascii.ascii_dec a a) as [_|N];
      [apply IH | elim N; reflexivity].
Qed.

(** X24.  The payload line stays within the payload: for a positive
    payload length, what [mqtt_on_message] prints for the payload is a
    prefix of the payload, at most as long as the payload length, and
    holds no NUL byte. *)
Theorem payload_text_within_payload (m : mosquitto_message) :
  0 < payloadlen m ->
  Z.of_nat (String.length (Sub.payload_text m)) <= payloadlen m /\
  String.prefix (Sub.payload_text m) (payload m) = true /\
  has_nul (Sub.payload_text m) = false.
Proof.
  intros H. unfold Sub.payload_text, fmt_s_prec.
  destruct (Z.ltb_spec 0 (payloadlen m)); [|lia].
  split; [|split].
  - pose proof (c_str_length (string_firstn (Z.to_nat (payloadlen m))
                                (payload m))).
    pose proof (string_firstn_length (Z.to_nat (payloadlen m)) (payload m)).
    lia.
  - apply c_str_firstn_prefix.
  - generalize (string_firstn (Z.to_nat (payloadlen m)) (payload m)).
    intros s. induction s as [|a r IH]; [reflexivity|].
    cbn [c_str]. destruct (Ascii.eqb a NUL) eqn:E; [reflexivity|].
    cbn [has_nul]. rewrite E, IH. reflexivity.
Qed.

Lemma payload_text_within_payload_witness :
  Z.of_nat (String.length
              (Sub.payload_text (mk_message 1 "test" "hello world" 5 false)))
  <= 5.
Proof.
  apply (proj1 (payload_text_within_payload
                  (mk_message 1 "test" "hello world" 5 false) eq_refl)).
Defined.

(** ** Sample runs of the further properties *)

Lemma mqtt_pub_exit_status_witness :
  exists ctx' out,
    Pub.mqtt_pub unreachable_broker pub_sample = Ok ctx' out /\
    ctx' = Pub.set_exit_code pub_sample EXIT_FAILURE /\
    count is_stderr out = 1%nat /\
    count is_stdout out = 0%nat.
Proof.
  eexists _, _. split; [reflexivity|].
  exact (mqtt_pub_exit_status unreachable_broker pub_sample _ _ eq_refl).
Defined.

Lemma mqtt_pub_releases_witness :
  exists ctx' out,
    Pub.mqtt_pub unreachable_broker pub_sample = Ok ctx' out /\
    count is_lib_cleanup out = 1%nat /\ count is_destroy out = 1%nat.
Proof.
  eexists _, _. split; [reflexivity|].
  destruct (mqtt_pub_releases unreachable_broker pub_sample _ _ eq_refl)
    as (_ & H1 & _ & H2 & _).
  split; [exact H1 | exact H2].
Defined.

Lemma mqtt_pub_stops_at_failure_witness :
  exists ctx' out,
    Pub.mqtt_pub unreachable_broker pub_sample = Ok ctx' out /\
    count is_connect out = 1%nat /\ count is_publish out = 0%nat.
Proof.
  eexists _, _. split; [reflexivity|].
  destruct (mqtt_pub_stops_at_failure unreachable_broker pub_sample _ _ eq_refl)
    as (_ & H1 & H2).
  split; [exact H1 | exact H2].
Defined.

Lemma receive_loop_stops_at_first_witness :
  exists out,
    Sub.receive_loop MOSQ_ERR_SUCCESS false 0 sample_replies
    = Ok (MOSQ_ERR_CONN_LOST, 0) out /\
    exists pre r post,
      sample_replies = pre ++ r :: post /\
      List.length (filter is_loop out) = S (List.length pre) /\
      filter is_stdout out = blocks (pre ++ [r]).
Proof.
  eexists. split; [reflexivity|].
  destruct (receive_loop_stops_at_first sample_replies 0 _ _ _ eq_refl)
    as (pre & r & post & E & _ & _ & _ & _ & Hl & Hs & _).
  exists pre, r, post. split; [exact E|]. split; [|exact Hs].
  rewrite Hl. apply repeat_length.
Defined.

Lemma receive_loop_returns_witness :
  exists out,
    Sub.receive_loop MOSQ_ERR_SUCCESS false 0 sample_replies
    = Ok (MOSQ_ERR_CONN_LOST, 0) out.
Proof.
  apply (receive_loop_returns
           [mk_loop_reply MOSQ_ERR_SUCCESS [] 0 false;
            mk_loop_reply MOSQ_ERR_SUCCESS
              [mk_message 1 "test" "hello" 5 false] 0 false]
           (mk_loop_reply MOSQ_ERR_CONN_LOST [] 0 false)
           [mk_loop_reply MOSQ_ERR_SUCCESS
              [mk_message 2 "test" "late" 4 false] 0 false]
           0); reflexivity.
Defined.

Lemma mqtt_sub_setup_failure_witness :
  exists out,
    Sub.mqtt_sub unreachable_broker sub_sample
    = Ok (Sub.set_exit_code sub_sample EXIT_FAILURE) out /\
    count is_stderr out = 1%nat /\
    count is_subscribe out = 0%nat /\
    count is_loop out = 0%nat /\
    count is_unsubscribe out = 0%nat /\
    count is_stdout out = 0%nat.
Proof.
  exact (mqtt_sub_setup_failure unreachable_broker sub_sample eq_refl).
Defined.

Lemma mqtt_sub_releases_witness :
  exists ctx' out,
    Sub.mqtt_sub (with_loop_replies reachable_broker 0 sample_replies)
      sub_sample = Ok ctx' out /\
    count is_lib_cleanup out = 1%nat /\ count is_destroy out = 1%nat.
Proof.
  eexists _, _. split; [reflexivity|].
  destruct (mqtt_sub_releases
              (with_loop_replies reachable_broker 0 sample_replies)
              sub_sample _ _ eq_refl) as (_ & H1 & _ & H2 & _).
  split; [exact H1 | exact H2].
Defined.

Lemma mqtt_sub_prints_delivered_witness :
  exists ctx' out,
    Sub.mqtt_sub (with_loop_replies reachable_broker 0 sample_replies)
      sub_sample = Ok ctx' out /\
    exists pre r post,
      sample_replies = pre ++ r :: post /\
      filter is_stdout out = blocks (pre ++ [r]) /\
      count is_loop out = S (List.length pre).
Proof.
  eexists _, _. split; [reflexivity|].
  destruct (mqtt_sub_prints_delivered
              (with_loop_replies reachable_broker 0 sample_replies)
              sub_sample _ _ eq_refl eq_refl eq_refl)
    as (pre & r & post & E & _ & _ & Hs & Hl).
  exists pre, r, post. repeat split; assumption.
Defined.


Lemma mqtt_sub_setup_order_witness :
  exists after,
    events_of (Sub.mqtt_sub unreachable_broker sub_sample)
    = [signal SIGINT; signal SIGTERM; mosquitto_lib_init;
       mosquitto_new None true; mosquitto_username_pw_set None None;
       mosquitto_message_callback_set;
       mosquitto_connect (Some "localhost") 1883 MQTT_KEEPALIVE] ++ after /\
    count is_connect after = 0%nat /\
    count is_callback_set after = 0%nat /\
    count is_new after = 0%nat.
Proof.
  exact (mqtt_sub_setup_order unreachable_broker sub_sample _ _
           eq_refl eq_refl).
Defined.

Lemma sub_command_line_accepted_witness :
  exists ctx out,
    Sub.context_init false ["-h"; "broker"; "-t"; "-H"; "-r"] = Ok ctx out /\
    Sub.topic ctx = Some "-H" /\ Sub.host ctx = Some "broker" /\
    Sub.retain ctx = true /\ Sub.cmd ctx = Sub.COMMAND_SUB.
Proof.
  destruct (sub_command_line_accepted false
              [opt_h "broker"; opt_t "-H"; opt_r]
              ltac:(repeat constructor; discriminate))
    as (ctx & out & E & (_ & Hh & _ & _ & _ & Ht & Hr) & Hc & _).
  exists ctx, out. repeat split; assumption.
Defined.
